(** * A shallow embedding of [agent.py] (class [GitHubMonitorAgent])

    The development follows the source file top to bottom:
    - [PyStr]: the [str] methods and the three regular expressions that
      [extract_all_errors], [rule_based_fix] and [ai_fix] use;
    - [Extractor]: [extract_all_errors], the loop over archive entries and
      their lines with the [seen_errors] set;
    - [Advisor]: [rule_based_fix] and [ai_fix];
    - [Monitor]: [monitor], the loop over workflows, written in a small
      monad that records the calls made and carries a raised exception.

    Text is modelled as Rocq [string]: a sequence of characters with code
    points 0..255, the Latin-1 part of Python's [str].  Character classes
    ([str.isspace], [\s], [\d], [str.lower], the line boundaries of
    [str.splitlines]) are the ones Python uses on that range.  Beyond it
    Python knows further white space, line boundaries and decimal digits,
    and [re.IGNORECASE] lets [s], [i] and [k] of a pattern also match
    U+017F, U+0130, U+0131 and U+212A, which [str.lower] does not turn
    into these letters; a fact that rests on the range says so. *)

From Stdlib Require Import ZArith Ascii String.
From Stdlib Require Strings.Byte.
From stdpp Require Import base decidable list gmap strings.

Open Scope string_scope.
Open Scope list_scope.

(* ===================================================================== *)
(** ** Python [str] operations and the regular expressions of the source *)
(* ===================================================================== *)

Module PyStr.

(** Code point of a character. *)
Definition ord (c : ascii) : N := N_of_ascii c.

Definition in_range (lo hi : N) (c : ascii) : bool :=
  (lo <=? ord c)%N && (ord c <=? hi)%N.

(** [str.isspace] on one character, which is also the class [\s] of [re]
    for [str] patterns: U+0009..U+000D, U+001C..U+001F, U+0020, U+0085,
    U+00A0. *)
Definition is_space (c : ascii) : bool :=
  in_range 9 13 c || in_range 28 31 c
  || (ord c =? 32)%N || (ord c =? 133)%N || (ord c =? 160)%N.

(** The class [\d] on the range: the ten ASCII digits (on all of [str]
    it is every Unicode decimal digit). *)
Definition is_digit (c : ascii) : bool := in_range 48 57 c.

(** What [.] does not match (no DOTALL flag): the line feed. *)
Definition is_newline (c : ascii) : bool := (ord c =? 10)%N.

(** [str.lower] on one character: A..Z and the Latin-1 capitals
    U+00C0..U+00DE except the multiplication sign U+00D7 move by 32. *)
Definition lower_char (c : ascii) : ascii :=
  if in_range 65 90 c
     || (in_range 192 222 c && negb (ord c =? 215)%N)
  then ascii_of_N (ord c + 32)
  else c.

(** [s.lower()] *)
Fixpoint lower (s : string) : string :=
  match s with
  | EmptyString => EmptyString
  | String c s' => String (lower_char c) (lower s')
  end.

(** [s.startswith(p)] *)
Fixpoint startswith (p s : string) : bool :=
  match p, s with
  | EmptyString, _ => true
  | String a p', String b s' => if Ascii.eqb a b then startswith p' s' else false
  | String _ _, EmptyString => false
  end.

(** [sub in s] *)
Fixpoint str_in (sub s : string) : bool :=
  startswith sub s
  || match s with
     | EmptyString => false
     | String _ s' => str_in sub s'
     end.

(** [s.lstrip()], [s.rstrip()], [s.strip()] *)
Fixpoint lstrip (s : string) : string :=
  match s with
  | EmptyString => EmptyString
  | String c s' => if is_space c then lstrip s' else s
  end.

Fixpoint rstrip (s : string) : string :=
  match s with
  | EmptyString => EmptyString
  | String c s' =>
      match rstrip s' with
      | EmptyString => if is_space c then EmptyString else String c EmptyString
      | r => String c r
      end
  end.

Definition strip (s : string) : string := rstrip (lstrip s).

(** [s.replace(old, new)] for a non-empty [old]: occurrences are found
    left to right and do not overlap.  [skip] counts the characters of an
    occurrence that are still to be dropped. *)
Fixpoint replace_from (old new : string) (skip : nat) (s : string) : string :=
  match s with
  | EmptyString => EmptyString
  | String c s' =>
      match skip with
      | S k => replace_from old new k s'
      | O =>
          if startswith old s
          then new +:+ replace_from old new (String.length old - 1) s'
          else String c (replace_from old new 0 s')
      end
  end.

Definition replace (old new s : string) : string := replace_from old new 0 s.

(** [s.splitlines()]: the line boundaries on the range are LF, VT, FF, CR
    (CR LF counting as one), FS, GS, RS and NEL; a boundary at the very
    end does not open another line. *)
Definition is_linebreak (c : ascii) : bool :=
  in_range 10 13 c || in_range 28 30 c || (ord c =? 133)%N.

Definition is_cr (c : ascii) : bool := (ord c =? 13)%N.
Definition is_lf (c : ascii) : bool := (ord c =? 10)%N.

(** [cur] is the line being read, reversed; [after_cr] tells that the
    previous character was a CR, so that an LF right after it is part of
    the same boundary. *)
Fixpoint splitlines_from (cur : list ascii) (after_cr : bool) (s : string)
  : list string :=
  match s with
  | EmptyString =>
      match cur with
      | [] => []
      | _ => [string_of_list_ascii (rev cur)]
      end
  | String c s' =>
      if after_cr && is_lf c then splitlines_from cur false s'
      else if is_linebreak c
      then string_of_list_ascii (rev cur) :: splitlines_from [] (is_cr c) s'
      else splitlines_from (c :: cur) false s'
  end.

Definition splitlines (s : string) : list string := splitlines_from [] false s.

(** *** Regular expressions

    The two patterns given to [re.search] are alternations of literals,
    matched with [re.IGNORECASE]; on the range a literal character of the
    pattern matches a character of the text when their lower-case forms
    agree (the four characters that match [s], [i] and [k] without lowering
    to them lie beyond it). *)
Fixpoint startswith_ci (p s : string) : bool :=
  match p, s with
  | EmptyString, _ => true
  | String a p', String b s' =>
      if Ascii.eqb (lower_char a) (lower_char b) then startswith_ci p' s' else false
  | String _ _, EmptyString => false
  end.

(** [re.search("(a1|a2|...)", s, re.IGNORECASE) is not None] *)
Fixpoint re_search_ci (alts : list string) (s : string) : bool :=
  existsb (fun a => startswith_ci a s) alts
  || match s with
     | EmptyString => false
     | String _ s' => re_search_ci alts s'
     end.

(** The pattern of line 77. *)
Definition noise_alternatives : list string :=
  ["Process completed with exit code"; "Job defined at:"].

(** The pattern of line 85 (the backslashes only quote the brackets). *)
Definition error_alternatives : list string :=
  ["##[error]"; "ERROR"; "Exception"; "ZeroDivisionError";
   "ModuleNotFoundError"; "No such file"].

(** The pattern of line 91,
    [^\d{4}-\d{2}-\d{2}T.*?Z\s*##\[error\]\s*],
    as a backtracking matcher in continuation-passing style: each piece
    takes what follows it in the pattern as [k] and the text still to be
    read, and gives the text left after the whole match. *)
Definition matcher := string -> option string.

(** [\d{n}] *)
Fixpoint re_digits (n : nat) (k : matcher) : matcher :=
  fun s =>
    match n with
    | O => k s
    | S n' =>
        match s with
        | String c s' => if is_digit c then re_digits n' k s' else None
        | EmptyString => None
        end
    end.

(** A literal (case-sensitive: line 91 passes no flag). *)
Fixpoint re_lit (p : string) (k : matcher) : matcher :=
  fun s =>
    match p with
    | EmptyString => k s
    | String a p' =>
        match s with
        | String b s' => if Ascii.eqb a b then re_lit p' k s' else None
        | EmptyString => None
        end
    end.

(** [.*?]: the fewest characters first, one more on failure; [.] does not
    match a line feed. *)
Fixpoint re_dots_lazy (k : matcher) (s : string) : option string :=
  match k s with
  | Some r => Some r
  | None =>
      match s with
      | String c s' => if is_newline c then None else re_dots_lazy k s'
      | EmptyString => None
      end
  end.

(** [\s*]: as many as possible first, one fewer on failure. *)
Fixpoint re_spaces (k : matcher) (s : string) : option string :=
  match s with
  | String c s' =>
      if is_space c
      then match re_spaces k s' with
           | Some r => Some r
           | None => k s
           end
      else k s
  | EmptyString => k s
  end.

Definition re_end : matcher := fun s => Some s.

Definition timestamp_marker : matcher :=
  re_digits 4 (re_lit "-" (re_digits 2 (re_lit "-" (re_digits 2 (re_lit "T"
    (re_dots_lazy (re_lit "Z" (re_spaces (re_lit "##[error]"
      (re_spaces re_end)))))))))).

(** [re.sub(pattern, "", line)] for the pattern of line 91: the pattern
    starts with [^] and no MULTILINE flag is given, so it can only match
    at the first character, and it cannot match the empty string; at most
    one match is replaced. *)
Definition re_sub_timestamp_marker (line : string) : string :=
  match timestamp_marker line with
  | Some rest => rest
  | None => line
  end.

(** *** What the pattern of line 91 describes, and the words of the spec

    [line91_prefix line body rest] reads the pattern [^\d{4}-\d{2}-\d{2}T.*?Z\s*##\[error\]]
    without the matcher: [line] starts with four digits, a dash, two
    digits, a dash, two digits, [T], then [body] (any characters but the
    line feed), [Z], white space, and the marker; [rest] is what follows
    the marker.  Nothing in it asks [body] to be a time of day. *)
Fixpoint all_chars (P : ascii -> bool) (s : string) : bool :=
  match s with
  | EmptyString => true
  | String c s' => P c && all_chars P s'
  end.







(** A text to look for that is not empty and holds no white space, like
    the two labels of line 144. *)
Definition space_free (p : string) : Prop :=
  p <> "" /\ all_chars (fun c => negb (is_space c)) p = true.

End PyStr.

(* ===================================================================== *)
(** ** [extract_all_errors]: the scan of an opened archive               *)
(* ===================================================================== *)

Module Extractor.
Import PyStr.

(** One element of the list [errors] (a dict with these three keys). *)
Record ErrorOccurrence := mkError {
  job_step : string;
  line_no : nat;
  error_line : string
}.

(** The content of an opened archive as the loop of line 69 meets it: for
    every name of [z.namelist()], in that order, the name and
    [z.read(name).decode(errors="ignore")]. *)
Definition entries : Type := list (string * string).

(** Lines 76-81 and 84-88. *)
Definition is_noise (line : string) : bool := re_search_ci noise_alternatives line.
Definition is_error (line : string) : bool := re_search_ci error_alternatives line.

(** Lines 90-94. *)
Definition normalize (line : string) : string :=
  strip (re_sub_timestamp_marker line).

(** The two local variables [seen_errors] and [errors]. *)
Record scan_state := mkScan {
  seen_errors : gset string;
  errors : list ErrorOccurrence
}.

(** The body of the inner loop (lines 73-106) for one line. *)
Definition scan_line (name : string) (st : scan_state) (idx : nat) (line : string)
  : scan_state :=
  if is_noise line then st
  else if is_error line then
    let normalized := normalize line in
    if decide (lower normalized ∈ seen_errors st) then st
    else
      mkScan ({[ lower normalized ]} ∪ seen_errors st)
             (errors st ++ [mkError (replace ".txt" "" name) idx normalized])
  else st.

(** [for idx, line in enumerate(lines, start=idx)] *)
Fixpoint scan_lines (name : string) (st : scan_state) (idx : nat) (lines : list string)
  : scan_state :=
  match lines with
  | [] => st
  | line :: rest => scan_lines name (scan_line name st idx line) (S idx) rest
  end.

(** The body of the outer loop (lines 69-106) for one entry. *)
Definition scan_entry (st : scan_state) (entry : string * string) : scan_state :=
  let '(name, text) := entry in
  scan_lines name st 1 (splitlines text).

(** Lines 66-108, once the archive is open. *)
Definition scan_entries (z : entries) : list ErrorOccurrence :=
  errors (fold_left scan_entry z (mkScan ∅ [])).

(** *** The same scan over numbered lines

    A [RawLogLine] of the spec's data model: the entry name, the 1-based
    line number and the text.  [raw_lines] lists them in the order the
    two loops visit them; the facts about [scan_entries] are stated on
    that list. *)
Definition RawLogLine : Type := string * nat * string.

Fixpoint numbered_from (name : string) (idx : nat) (lines : list string)
  : list RawLogLine :=
  match lines with
  | [] => []
  | line :: rest => (name, idx, line) :: numbered_from name (S idx) rest
  end.

Definition raw_lines (z : entries) : list RawLogLine :=
  flat_map (fun entry => numbered_from (fst entry) 1 (splitlines (snd entry))) z.

Definition scan_raw (st : scan_state) (r : RawLogLine) : scan_state :=
  let '(name, idx, line) := r in scan_line name st idx line.

(** A line that reaches line 89: not noise, and an error signal. *)
Definition candidate (r : RawLogLine) : bool :=
  let '(_, _, line) := r in negb (is_noise line) && is_error line.

(** What line 102 appends for it, and the string line 97 looks up. *)
Definition occurrence_of (r : RawLogLine) : ErrorOccurrence :=
  let '(name, idx, line) := r in
  mkError (replace ".txt" "" name) idx (normalize line).

Definition dedup_key (o : ErrorOccurrence) : string := lower (error_line o).

(** Keeping, of a list of occurrences, the first one of every key that is
    not in [seen]. *)
Fixpoint first_by_key (seen : gset string) (os : list ErrorOccurrence)
  : list ErrorOccurrence :=
  match os with
  | [] => []
  | o :: rest =>
      if decide (dedup_key o ∈ seen) then first_by_key seen rest
      else o :: first_by_key ({[ dedup_key o ]} ∪ seen) rest
  end.

(** What the loop keeps true of its two variables: [seen_errors] holds
    the lower-case texts of [errors], each once. *)
Definition scan_invariant (st : scan_state) : Prop :=
  seen_errors st = list_to_set (map dedup_key (errors st))
  /\ NoDup (map dedup_key (errors st)).

End Extractor.

(* ===================================================================== *)
(** ** The agent: a monad for calls and exceptions, and the methods      *)
(* ===================================================================== *)

Module Agent.
Import PyStr Extractor.

Abbreviation bytes := (list Byte.byte).

(** A workflow and a run as the loop of [monitor] reads them: the keys
    ["id"], ["name"] and ["id"], ["conclusion"] of the JSON objects.  A
    conclusion that JSON gives as null compares unequal to both strings
    of lines 168 and 173, like any third string. *)
Record Workflow := mkWorkflow { wf_id : Z; wf_name : string }.
Record Run := mkRun { run_id : Z; conclusion : string }.

(** The first element of the list the generator returns, a dict read with
    [.get("generated_text")] and [.get("text")]. *)
Record Generated := mkGenerated {
  generated_text : option string;
  text : option string
}.

(** What lies outside the file: the three HTTP wrappers (each is one GET
    and a projection of the answer; [download_logs] gives [None] when the
    status is not 200), the [zipfile] module ([None] stands for
    [BadZipFile] raised while opening or reading), and the generator. *)
Record Env := mkEnv {
  env_list_workflows : list Workflow;
  env_latest_run : Z -> option Run;
  env_download_logs : Z -> option bytes;
  env_ZipFile : bytes -> option entries;
  env_llm : string -> Generated
}.

(** The only exception of the modelled part. *)
Inductive exn := BadZipFile.

(** The calls that are recorded, in the order they are made. *)
Inductive call :=
| Call_list_workflows
| Call_latest_run (workflow_id : Z)
| Call_download_logs (run_id : Z)
| Call_extract_all_errors (zip_bytes : bytes)
| Call_ai_fix (error_line : string)
| Call_llm (prompt : string).

(** A computation gives the calls it made and either the exception that
    ended it or its value. *)
Definition M (A : Type) : Type := (list call * (exn + A))%type.

Definition ret {A} (a : A) : M A := ([], inr a).
Definition raise {A} (e : exn) : M A := ([], inl e).
Definition emit (c : call) : M unit := ([c], inr tt).

Definition bind {A B} (m : M A) (k : A -> M B) : M B :=
  match m with
  | (t, inl e) => (t, inl e)
  | (t, inr a) => let '(t', r) := k a in (t ++ t', r)
  end.

Notation "x <- m ;; k" := (bind m (fun x => k))
  (at level 100, m at level 99, k at level 200, right associativity).
Notation "m ;;; k" := (bind m (fun _ => k))
  (at level 100, k at level 200, right associativity).

Definition trace {A} (m : M A) : list call := fst m.
Definition outcome {A} (m : M A) : exn + A := snd m.

(** [for x in xs: st = body(st, x)] *)
Fixpoint for_each {A S} (body : S -> A -> M S) (st : S) (xs : list A) : M S :=
  match xs with
  | [] => ret st
  | x :: rest => st' <- body st x ;; for_each body st' rest
  end.

(** Truth value of a Python object that is [None] or a [str]/[bytes]. *)
Definition truthy {A} (o : option (list A)) : bool :=
  match o with
  | Some (_ :: _) => true
  | _ => false
  end.

Definition truthy_str (o : option string) : bool :=
  match o with
  | Some (String _ _) => true
  | _ => false
  end.

(** [a or b] on such objects. *)
Definition py_or (a b : option string) : option string :=
  if truthy_str a then a else b.

Definition nl : string := String "010" EmptyString.

(** An element of [errors_info], an element of [all_results], the three
    loop variables of [monitor] and what the summary block prints. *)
Record AnnotatedError := mkAnnotated {
  error_number : nat;
  a_job_step : string;
  a_line_no : nat;
  a_error_line : string;
  suggestion : string
}.

Record RunResult := mkResult {
  workflow_name : string;
  r_run_id : Z;
  r_errors : list AnnotatedError
}.

Record loop_state := mkLoop {
  passed : nat;
  failed : nat;
  all_results : list RunResult
}.

Record Summary := mkSummary {
  total_workflows : nat;
  passed_count : nat;
  failed_count : nat;
  results : list RunResult
}.

(** Lines 116-119 and 145-148. *)
Definition dependency_fix : string :=
  "Cause: A required Python dependency is missing." +:+ nl +:+
  "Fix: Add the missing package to requirements.txt and ensure dependencies are installed in the workflow.".

Definition generic_fix : string :=
  "Cause: The workflow failed due to a configuration or dependency issue." +:+ nl +:+
  "Fix: Review the error message and update the workflow or project files accordingly.".

(** Lines 112-120. *)
Definition rule_based_fix (error_line : string) : option string :=
  let error_lower := lower error_line in
  if str_in "modulenotfounderror" error_lower then Some dependency_fix else None.

(** Lines 129-136. *)
Definition prompt_of (error_line : string) : string :=
  "You are a senior DevOps engineer." +:+ nl +:+
  "Explain the root cause and fix for this CI failure." +:+ nl +:+ nl +:+
  error_line +:+ nl +:+ nl +:+
  "Respond exactly in this format:" +:+ nl +:+
  "Cause: <one sentence>" +:+ nl +:+
  "Fix: <one sentence>".

(** Line 140: [response[0].get("generated_text") or
    response[0].get("text") or ""]. *)
Definition generated_string (response : Generated) : string :=
  default "" (py_or (py_or (generated_text response) (text response)) (Some "")).

Section Methods.
Context (env : Env).

Definition list_workflows : M (list Workflow) :=
  emit Call_list_workflows ;;; ret (env_list_workflows env).

Definition latest_run (workflow_id : Z) : M (option Run) :=
  emit (Call_latest_run workflow_id) ;;; ret (env_latest_run env workflow_id).

Definition download_logs (run_id : Z) : M (option bytes) :=
  emit (Call_download_logs run_id) ;;; ret (env_download_logs env run_id).

Definition llm (prompt : string) : M Generated :=
  emit (Call_llm prompt) ;;; ret (env_llm env prompt).

(** Lines 64-108. *)
Definition extract_all_errors (zip_bytes : bytes) : M (list ErrorOccurrence) :=
  emit (Call_extract_all_errors zip_bytes) ;;;
  match env_ZipFile env zip_bytes with
  | None => raise BadZipFile
  | Some z => ret (scan_entries z)
  end.

(** Lines 124-150. *)
Definition ai_fix (error_line : string) : M string :=
  emit (Call_ai_fix error_line) ;;;
  let rule_fix := rule_based_fix error_line in
  if truthy_str rule_fix then ret (default "" rule_fix)
  else
    response <- llm (prompt_of error_line) ;;
    let text := generated_string response in
    let text := strip text in
    if negb (str_in "Cause:" text) || negb (str_in "Fix:" text)
    then ret generic_fix
    else ret text.

(** Lines 183-191: [for idx, err in enumerate(errors, start=idx)]. *)
Fixpoint annotate (errors_info : list AnnotatedError) (idx : nat)
    (errs : list ErrorOccurrence) : M (list AnnotatedError) :=
  match errs with
  | [] => ret errors_info
  | err :: rest =>
      fix_ <- ai_fix (error_line err) ;;
      annotate (errors_info ++
                  [mkAnnotated idx (job_step err) (line_no err) (error_line err) fix_])
               (S idx) rest
  end.

(** The body of the loop of lines 163-197 for one workflow. *)
Definition monitor_body (st : loop_state) (wf : Workflow) : M loop_state :=
  run <- latest_run (wf_id wf) ;;
  match run with
  | None => ret st
  | Some run =>
      if String.eqb (conclusion run) "success" then
        ret (mkLoop (passed st + 1) (failed st) (all_results st))
      else if String.eqb (conclusion run) "failure" then
        let st := mkLoop (passed st) (failed st + 1) (all_results st) in
        logs <- download_logs (run_id run) ;;
        if negb (truthy logs) then ret st
        else
          errs <- extract_all_errors (default [] logs) ;;
          errors_info <- annotate [] 1 errs ;;
          ret (mkLoop (passed st) (failed st)
                 (all_results st ++ [mkResult (wf_name wf) (run_id run) errors_info]))
      else ret st
  end.

(** Lines 154-214; the value is what the summary block prints, together
    with [all_results], which the loop of lines 200-208 prints. *)
Definition monitor : M Summary :=
  workflows <- list_workflows ;;
  st <- for_each monitor_body (mkLoop 0 0 []) workflows ;;
  ret (mkSummary (length workflows) (passed st) (failed st) (all_results st)).

End Methods.

(** *** Counting workflows by the conclusion of their latest run *)
Definition concluded (env : Env) (c : string) (wf : Workflow) : bool :=
  match env_latest_run env (wf_id wf) with
  | Some run => String.eqb (conclusion run) c
  | None => false
  end.

Definition count_concluded (env : Env) (c : string) (wfs : list Workflow) : nat :=
  length (filter (fun wf => concluded env c wf = true) wfs).

(** Every failed run of [wfs] has logs that download and open. *)
Definition logs_usable (env : Env) (wfs : list Workflow) : Prop :=
  forall wf run,
    wf ∈ wfs ->
    env_latest_run env (wf_id wf) = Some run ->
    conclusion run = "failure" ->
    exists logs,
      env_download_logs env (run_id run) = Some logs
      /\ truthy (Some logs) = true
      /\ is_Some (env_ZipFile env logs).

(** *** What a pass reports and which calls it makes

    [report_of] gives, for a workflow whose latest run concluded
    [failure] and whose download gave bytes, the name and run that line
    193 records; [failed_run_of] the run whose logs line 176 asks for. *)
Definition failed_run_of (env : Env) (wf : Workflow) : option Run :=
  match env_latest_run env (wf_id wf) with
  | Some run => if String.eqb (conclusion run) "failure" then Some run else None
  | None => None
  end.

Definition report_of (env : Env) (wf : Workflow) : option (string * Z) :=
  match failed_run_of env wf with
  | Some run =>
      if truthy (env_download_logs env (run_id run))
      then Some (wf_name wf, run_id run)
      else None
  | None => None
  end.

(** Every failed run of [wfs] whose download gave bytes has logs that
    open. *)
Definition logs_open (env : Env) (wfs : list Workflow) : Prop :=
  forall wf run logs,
    wf ∈ wfs ->
    failed_run_of env wf = Some run ->
    env_download_logs env (run_id run) = Some logs -> logs <> [] ->
    is_Some (env_ZipFile env logs).

(** The two fields that name a result, and what ties a result to the
    archive of a failed run of [wfs]: the errors of the result are the
    occurrences of the scan, numbered from 1, each with what [ai_fix]
    returns for its text. *)
Definition result_key (r : RunResult) : string * Z :=
  (workflow_name r, r_run_id r).

Definition result_of_archive (env : Env) (wfs : list Workflow) (r : RunResult)
  : Prop :=
  exists wf run logs z,
    wf ∈ wfs
    /\ failed_run_of env wf = Some run
    /\ env_download_logs env (run_id run) = Some logs /\ logs <> []
    /\ env_ZipFile env logs = Some z
    /\ workflow_name r = wf_name wf /\ r_run_id r = run_id run
    /\ map error_number (r_errors r) = seq 1 (length (scan_entries z))
    /\ map a_job_step (r_errors r) = map job_step (scan_entries z)
    /\ map a_line_no (r_errors r) = map line_no (scan_entries z)
    /\ map a_error_line (r_errors r) = map error_line (scan_entries z)
    /\ Forall (fun a => outcome (ai_fix env (a_error_line a)) = inr (suggestion a))
              (r_errors r).

(** The arguments of the recorded calls of one kind. *)
Definition latest_run_calls (t : list call) : list Z :=
  omap (fun c => match c with Call_latest_run i => Some i | _ => None end) t.

Definition download_calls (t : list call) : list Z :=
  omap (fun c => match c with Call_download_logs i => Some i | _ => None end) t.

Definition extract_calls (t : list call) : list bytes :=
  omap (fun c => match c with Call_extract_all_errors b => Some b | _ => None end) t.

Definition llm_calls (t : list call) : list string :=
  omap (fun c => match c with Call_llm p => Some p | _ => None end) t.

Definition ai_fix_calls (t : list call) : list string :=
  omap (fun c => match c with Call_ai_fix e => Some e | _ => None end) t.

(** *** Concrete repositories used in the examples

    The workflows are given by name and conclusion of the latest run;
    workflow [n] has the run [100 + n]; [zip_of] gives the content
    of the archive of a run, [None] for bytes that do not open.  Logs are
    one byte naming the run. *)
Definition byte_of_run (run_id : Z) : Byte.byte :=
  default Byte.x00 (Byte.of_N (Z.to_N (run_id - 100))).

Definition example_env (wfs : list (string * string))
    (zip_of : Z -> option entries) (answer : Generated) : Env :=
  mkEnv
    (imap (fun i wf => mkWorkflow (Z.of_nat i) (fst wf)) wfs)
    (fun wid => (fun wf => mkRun (100 + wid)%Z (snd wf)) <$> wfs !! Z.to_nat wid)
    (fun rid => Some [byte_of_run rid])
    (fun logs =>
       match logs with
       | [b] => zip_of (100 + Z.of_N (Byte.to_N b))%Z
       | _ => None
       end)
    (fun _ => answer).

Definition no_answer : Generated := mkGenerated None None.

(** One failed run whose logs do not open. *)
Definition corrupt_env : Env :=
  example_env [("lint", "success"); ("build", "failure"); ("docs", "success")]
    (fun _ => None) no_answer.

(** The five workflows of the spec's counter scenario; every archive has
    one file with one error line. *)
Definition five_env : Env :=
  example_env [("lint", "success"); ("docs", "success"); ("build", "failure");
               ("test", "failure"); ("deploy", "cancelled")]
    (fun _ => Some [("build/1_test.txt", "ERROR: tests failed")]) no_answer.

(** One failed run whose archive holds no error line. *)
Definition quiet_env : Env :=
  example_env [("build", "failure")]
    (fun _ => Some [("build/1_test.txt", "all good" +:+ nl +:+ "done")]) no_answer.

(** Four workflows: one passed, one failed with two error lines (one of
    them a missing module), one failed without logs, one without a run;
    the generator answers in the asked format. *)
Definition mixed_env : Env :=
  mkEnv
    [mkWorkflow 1 "lint"; mkWorkflow 2 "test"; mkWorkflow 3 "deploy";
     mkWorkflow 4 "nightly"]
    (fun wid =>
       if (wid =? 1)%Z then Some (mkRun 11 "success")
       else if (wid =? 2)%Z then Some (mkRun 12 "failure")
       else if (wid =? 3)%Z then Some (mkRun 13 "failure")
       else None)
    (fun rid => if (rid =? 12)%Z then Some [Byte.x50; Byte.x4b] else None)
    (fun _ =>
       Some [("test/4_pytest.txt",
              "E   ModuleNotFoundError: No module named 'yaml'" +:+ nl +:+
              "2024-05-01T12:00:00.000Z ##[error] exit status 2")])
    (fun _ => mkGenerated
                (Some ("  Cause: the test step failed." +:+ nl +:+
                       "Fix: read the log above.  "))
                None).

(** One failed run whose download gives nothing. *)
Definition no_logs_env : Env :=
  mkEnv [mkWorkflow 1 "ci"] (fun _ => Some (mkRun 7 "failure"))
        (fun _ => None) (fun _ => None) (fun _ => no_answer).

End Agent.

(* ===================================================================== *)
(** ** Facts about the string operations                                  *)
(* ===================================================================== *)

Import PyStr Extractor Agent.

(** [simpl] may compute an append whose first argument starts with a
    constructor. *)
Arguments String.append !_ _ / : simpl nomatch.

Lemma append_assoc (a b c : string) : (a +:+ b) +:+ c = a +:+ (b +:+ c).
Proof. induction a as [|x a IH]; simpl; [reflexivity | now rewrite IH]. Qed.

(** *** [startswith] and [in] *)

Lemma startswith_append (p s : string) : startswith p (p +:+ s) = true.
Proof.
  induction p as [|a p IH]; simpl; [reflexivity |].
  now rewrite Ascii.eqb_refl.
Qed.

Lemma startswith_inv (p s : string) :
  startswith p s = true -> exists s', s = p +:+ s'.
Proof.
  revert s. induction p as [|a p IH]; intros s H; simpl in *.
  - now exists s.
  - destruct s as [|b s]; [discriminate |].
    destruct (Ascii.eqb_spec a b) as [->|]; [| discriminate].
    destruct (IH _ H) as [s' ->]. now exists s'.
Qed.

Lemma startswith_weaken (p a b : string) :
  startswith p a = true -> startswith p (a +:+ b) = true.
Proof.
  intros H. destruct (startswith_inv _ _ H) as [s' ->].
  rewrite append_assoc. apply startswith_append.
Qed.

Lemma str_in_append_r (p a b : string) :
  str_in p a = true -> str_in p (a +:+ b) = true.
Proof.
  induction a as [|x a IH]; simpl.
  - rewrite orb_false_r. intros H.
    destruct p; [| discriminate]. now destruct b.
  - intros [H|H]%orb_true_iff.
    + apply (startswith_weaken _ _ b) in H. simpl in H. now rewrite H.
    + rewrite (IH H). apply orb_true_r.
Qed.

Lemma str_in_append_l (p a b : string) :
  str_in p b = true -> str_in p (a +:+ b) = true.
Proof.
  intros H. induction a as [|x a IH]; simpl; [exact H |].
  fold (str_in p (a +:+ b)). rewrite IH. apply orb_true_r.
Qed.

(** *** [strip] keeps a middle part of the string *)

Lemma lstrip_suffix (s : string) : exists ws, s = ws +:+ lstrip s.
Proof.
  induction s as [|c s [ws IH]]; simpl.
  - now exists "".
  - destruct (is_space c).
    + exists (String c ws). simpl. now rewrite <- IH.
    + now exists "".
Qed.

Lemma rstrip_prefix (s : string) : exists ws, s = rstrip s +:+ ws.
Proof.
  induction s as [|c s [ws IH]]; simpl.
  - now exists "".
  - destruct (rstrip s) as [|d r] eqn:E.
    + destruct (is_space c).
      * exists (String c s). reflexivity.
      * exists ws. simpl. now rewrite IH at 1.
    + exists ws. simpl. simpl in IH. now rewrite IH at 1.
Qed.

Lemma str_in_strip (p s : string) :
  str_in p (strip s) = true -> str_in p s = true.
Proof.
  unfold strip. intros H.
  destruct (lstrip_suffix s) as [ws1 E1].
  destruct (rstrip_prefix (lstrip s)) as [ws2 E2].
  rewrite E1. apply str_in_append_l. rewrite E2. now apply str_in_append_r.
Qed.



(** *** Case-insensitive search is search in the lower-case forms *)

Lemma startswith_ci_lower (p s : string) :
  startswith_ci p s = startswith (lower p) (lower s).
Proof.
  revert s. induction p as [|a p IH]; intros [|b s]; simpl; try reflexivity.
  now rewrite IH.
Qed.

Lemma existsb_pointwise {A} (f g : A -> bool) (l : list A) :
  (forall a, f a = g a) -> existsb f l = existsb g l.
Proof. intros E. induction l as [|a l IH]; simpl; [reflexivity | now rewrite E, IH]. Qed.

Lemma existsb_orb {A} (f g : A -> bool) (l : list A) :
  existsb (fun a => f a || g a) l = existsb f l || existsb g l.
Proof.
  induction l as [|a l IH]; simpl; [reflexivity |].
  rewrite IH. destruct (f a), (g a), (existsb f l); reflexivity.
Qed.

Lemma re_search_ci_lower (alts : list string) (s : string) :
  re_search_ci alts s = existsb (fun a => str_in (lower a) (lower s)) alts.
Proof.
  induction s as [|c s IH].
  - simpl. rewrite orb_false_r. apply existsb_pointwise. intros a.
    rewrite startswith_ci_lower. simpl. now rewrite orb_false_r.
  - cbn [re_search_ci lower str_in]. rewrite IH, <- existsb_orb.
    apply existsb_pointwise. intros a. now rewrite startswith_ci_lower.
Qed.

(** The two searches of [scan_line], spelled out. *)
Lemma is_noise_lower (line : string) :
  is_noise line =
  str_in "process completed with exit code" (lower line)
  || str_in "job defined at:" (lower line).
Proof.
  unfold is_noise. rewrite re_search_ci_lower. simpl. now rewrite orb_false_r.
Qed.

(** *** The matcher of line 91 against the prefix of the spec *)
















(* ===================================================================== *)
(** ** Facts about the scan                                               *)
(* ===================================================================== *)

Lemma scan_lines_raw name st idx lines :
  scan_lines name st idx lines = fold_left scan_raw (numbered_from name idx lines) st.
Proof.
  revert st idx. induction lines as [|line rest IH]; intros st idx; simpl;
    [reflexivity | apply IH].
Qed.

Lemma scan_entries_raw z st :
  fold_left scan_entry z st = fold_left scan_raw (raw_lines z) st.
Proof.
  revert st. induction z as [|[name text] z IH]; intros st; simpl; [reflexivity |].
  unfold raw_lines in *. simpl. rewrite fold_left_app, IH.
  now rewrite scan_lines_raw.
Qed.

(** One step of the scan, by cases. *)
Lemma scan_raw_skip st r : candidate r = false -> scan_raw st r = st.
Proof.
  destruct r as [[name idx] line]. unfold candidate, scan_raw, scan_line.
  destruct (is_noise line); [reflexivity |].
  destruct (is_error line); [discriminate | reflexivity].
Qed.

Lemma scan_raw_seen st r :
  candidate r = true -> dedup_key (occurrence_of r) ∈ seen_errors st ->
  scan_raw st r = st.
Proof.
  destruct r as [[name idx] line]. unfold candidate, scan_raw, scan_line.
  destruct (is_noise line); [discriminate |].
  destruct (is_error line); [| discriminate].
  intros _ H. cbn in H. now rewrite decide_True.
Qed.

Lemma scan_raw_new st r :
  candidate r = true -> dedup_key (occurrence_of r) ∉ seen_errors st ->
  scan_raw st r =
  mkScan ({[ dedup_key (occurrence_of r) ]} ∪ seen_errors st)
         (errors st ++ [occurrence_of r]).
Proof.
  destruct r as [[name idx] line]. unfold candidate, scan_raw, scan_line.
  destruct (is_noise line); [discriminate |].
  destruct (is_error line); [| discriminate].
  intros _ H. cbn in H. now rewrite decide_False.
Qed.

(** The scan keeps, of the candidates in visiting order, the first of
    every key. *)
Lemma fold_scan_raw raws st :
  errors (fold_left scan_raw raws st) =
  errors st ++ first_by_key (seen_errors st) (map occurrence_of (filter (fun r => candidate r = true) raws)).
Proof.
  revert st. induction raws as [|r raws IH]; intros st; simpl.
  - now rewrite app_nil_r.
  - destruct (candidate r) eqn:C.
    + rewrite filter_cons_True by exact C. simpl.
      destruct (decide (dedup_key (occurrence_of r) ∈ seen_errors st)) as [I|N].
      * rewrite (scan_raw_seen _ _ C I). apply IH.
      * rewrite (scan_raw_new _ _ C N), IH. simpl. now rewrite <- app_assoc.
    + rewrite filter_cons_False by (rewrite C; discriminate).
      rewrite (scan_raw_skip _ _ C). apply IH.
Qed.

Lemma scan_entries_first_by_key z :
  scan_entries z =
  first_by_key ∅ (map occurrence_of (filter (fun r => candidate r = true) (raw_lines z))).
Proof. unfold scan_entries. now rewrite scan_entries_raw, fold_scan_raw. Qed.

Lemma first_by_key_elem seen os o :
  o ∈ first_by_key seen os -> o ∈ os /\ dedup_key o ∉ seen.
Proof.
  revert seen. induction os as [|x os IH]; intros seen; simpl.
  - intros H. inversion H.
  - destruct (decide (dedup_key x ∈ seen)) as [I|N].
    + intros H. destruct (IH _ H). split; [now right | assumption].
    + intros [->|H]%elem_of_cons.
      * split; [now left | assumption].
      * destruct (IH _ H) as [? K]. split; [now right |].
        intros I. apply K, elem_of_union. now right.
Qed.

Lemma first_by_key_NoDup seen os : NoDup (map dedup_key (first_by_key seen os)).
Proof.
  revert seen. induction os as [|x os IH]; intros seen; simpl.
  - constructor.
  - destruct (decide (dedup_key x ∈ seen)); [apply IH |].
    simpl. constructor; [| apply IH].
    intros (o & E & H)%list_elem_of_fmap.
    apply first_by_key_elem in H as [_ H]. set_solver.
Qed.

(** The first occurrence of a key that is not yet seen is kept. *)
Lemma first_by_key_first seen pre o post :
  dedup_key o ∉ seen ->
  (forall p, p ∈ pre -> dedup_key p <> dedup_key o) ->
  o ∈ first_by_key seen (pre ++ o :: post).
Proof.
  revert seen. induction pre as [|x pre IH]; intros seen N F; simpl.
  - rewrite decide_False by exact N. now left.
  - assert (dedup_key x <> dedup_key o) by (apply F; now left).
    assert (forall p, p ∈ pre -> dedup_key p <> dedup_key o)
      by (intros p Hp; apply F; now right).
    destruct (decide (dedup_key x ∈ seen)); [now apply IH |].
    right. apply IH; [| assumption].
    intros [I%elem_of_singleton|I]%elem_of_union; [congruence | contradiction].
Qed.

(** A list splits at the first element that satisfies a test. *)
Lemma split_first {A} (P : A -> bool) (l : list A) x :
  x ∈ l -> P x = true ->
  exists pre y post,
    l = pre ++ y :: post /\ P y = true /\ forall p, p ∈ pre -> P p = false.
Proof.
  induction l as [|a l IH]; intros H Px; [inversion H |].
  destruct (P a) eqn:Pa.
  - exists [], a, l. repeat split; [assumption |]. intros p Hp. inversion Hp.
  - apply elem_of_cons in H as [->|H]; [congruence |].
    destruct (IH H Px) as (pre & y & post & -> & Py & F).
    exists (a :: pre), y, post. repeat split; [assumption |].
    intros p [->|Hp]%elem_of_cons; auto.
Qed.

Lemma NoDup_fmap_eq {A B} (f : A -> B) (l : list A) x y :
  NoDup (map f l) -> x ∈ l -> y ∈ l -> f x = f y -> x = y.
Proof.
  induction l as [|a l IH]; simpl; intros N Hx Hy E; [inversion Hx |].
  apply NoDup_cons in N as [Na N].
  apply elem_of_cons in Hx as [->|Hx]; apply elem_of_cons in Hy as [->|Hy]; auto.
  - destruct Na. rewrite E. now apply list_elem_of_fmap_2.
  - destruct Na. rewrite <- E. now apply list_elem_of_fmap_2.
Qed.

Lemma filter_none {A} (P : A -> Prop) `{forall a, Decision (P a)} (l : list A) :
  (forall a, a ∈ l -> ~ P a) -> filter P l = [].
Proof.
  induction l as [|a l IH]; intros F; [reflexivity |].
  rewrite filter_cons_False by (apply F; now left).
  apply IH. intros b Hb. apply F. now right.
Qed.

Lemma NoDup_fmap_count `{EqDecision B} {A} (f : A -> B) (l : list A) x :
  NoDup (map f l) -> x ∈ l -> length (filter (fun o => f o = f x) l) = 1.
Proof.
  induction l as [|a l IH]; simpl; intros N Hx; [inversion Hx |].
  apply NoDup_cons in N as [Na N].
  destruct (decide (f a = f x)) as [E|E].
  - rewrite filter_cons_True by exact E. simpl. f_equal.
    rewrite filter_none; [reflexivity |].
    intros o Ho Eo. destruct Na. rewrite E, <- Eo. now apply list_elem_of_fmap_2.
  - rewrite filter_cons_False by exact E.
    apply elem_of_cons in Hx as [->|Hx]; [now destruct E | now apply IH].
Qed.

Lemma candidates_split (pre : list RawLogLine) r0 post :
  candidate r0 = true ->
  map occurrence_of (filter (fun r => candidate r = true) (pre ++ r0 :: post)) =
  map occurrence_of (filter (fun r => candidate r = true) pre)
  ++ occurrence_of r0
  :: map occurrence_of (filter (fun r => candidate r = true) post).
Proof.
  intros C. rewrite filter_app, filter_cons_True by exact C.
  now rewrite map_app.
Qed.

(** C2. The occurrences of one extraction have pairwise different
    lower-case normalized texts; and for every error line of the archive
    (however often its text, compared in lower case after normalization,
    occurs) the result holds exactly one occurrence with that text: the
    one made from the first such line in the order of traversal, with the
    entry name and line number of that line. *)
Theorem extraction_deduplicates (z : entries) :
  NoDup (map dedup_key (scan_entries z))
  /\ forall r,
       r ∈ raw_lines z -> candidate r = true ->
       exists pre r0 post,
         raw_lines z = pre ++ r0 :: post
         /\ candidate r0 = true
         /\ dedup_key (occurrence_of r0) = dedup_key (occurrence_of r)
         /\ (forall p, p ∈ pre -> candidate p = true ->
                       dedup_key (occurrence_of p) <> dedup_key (occurrence_of r))
         /\ occurrence_of r0 ∈ scan_entries z
         /\ (forall o, o ∈ scan_entries z ->
                       dedup_key o = dedup_key (occurrence_of r) ->
                       o = occurrence_of r0)
         /\ length (filter (fun o => dedup_key o = dedup_key (occurrence_of r))
                           (scan_entries z)) = 1.
Proof.
  assert (N : NoDup (map dedup_key (scan_entries z)))
    by (rewrite scan_entries_first_by_key; apply first_by_key_NoDup).
  split; [exact N |]. intros r Hr C.
  set (k := dedup_key (occurrence_of r)).
  destruct (split_first
              (fun x => candidate x && bool_decide (dedup_key (occurrence_of x) = k))
              (raw_lines z) r Hr) as (pre & r0 & post & E & P0 & F).
  { rewrite C. simpl. now apply bool_decide_eq_true. }
  apply andb_true_iff in P0 as [C0 K0]. apply bool_decide_eq_true in K0.
  assert (Fpre : forall p, p ∈ pre -> candidate p = true ->
                           dedup_key (occurrence_of p) <> k).
  { intros p Hp Cp Kp. specialize (F p Hp). rewrite Cp in F. simpl in F.
    apply bool_decide_eq_false in F. contradiction. }
  assert (I0 : occurrence_of r0 ∈ scan_entries z).
  { rewrite scan_entries_first_by_key, E, (candidates_split _ _ _ C0).
    apply first_by_key_first; [set_solver |].
    intros o (p & -> & Hp)%list_elem_of_fmap.
    apply list_elem_of_filter in Hp as [Cp Hp]. rewrite K0. now apply Fpre. }
  exists pre, r0, post. repeat split; try assumption.
  - intros o Ho Ko. apply (NoDup_fmap_eq dedup_key (scan_entries z)); try assumption.
    now rewrite Ko, K0.
  - fold k. rewrite <- K0. now apply NoDup_fmap_count.
Qed.

Lemma extraction_deduplicates_witness :
  exists pre r0 post,
    raw_lines [("build/3_test.txt", "ERROR: boom" +:+ nl +:+ "ok")
               ; ("build/4_pack.txt", "error: BOOM")]
    = pre ++ r0 :: post
    /\ r0 = ("build/3_test.txt", 1, "ERROR: boom")
    /\ length (filter (fun o => dedup_key o = "error: boom")
                      (scan_entries [("build/3_test.txt", "ERROR: boom" +:+ nl +:+ "ok")
                                     ; ("build/4_pack.txt", "error: BOOM")])) = 1.
Proof.
  destruct (proj2 (extraction_deduplicates
                     [("build/3_test.txt", "ERROR: boom" +:+ nl +:+ "ok")
                      ; ("build/4_pack.txt", "error: BOOM")])
                  ("build/4_pack.txt", 1, "error: BOOM"))
    as (pre & r0 & post & E & C0 & K0 & F & _ & _ & L).
  - vm_compute. right. right. left.
  - reflexivity.
  - exists pre, r0, post. split; [exact E |]. split; [| exact L].
    vm_compute in E.
    destruct pre as [|p pre].
    + now injection E as <- _.
    + injection E as <- E. exfalso. apply (F _ (list_elem_of_here _ _)); reflexivity.
Defined.

(** C3. A line with one of the two noise texts in it (in any case) leaves
    the state of the scan as it was, whether or not it also holds an
    error signal; every occurrence of the result comes from a line that
    is not noise; the result is the one of the scan without the noise
    lines; and the spec's example line gives no occurrence. *)
Theorem noise_takes_precedence :
  (forall name st idx line,
     str_in "process completed with exit code" (lower line) = true
     \/ str_in "job defined at:" (lower line) = true ->
     scan_line name st idx line = st)
  /\ (forall z o,
        o ∈ scan_entries z ->
        exists name idx line,
          (name, idx, line) ∈ raw_lines z
          /\ is_noise line = false
          /\ o = occurrence_of (name, idx, line))
  /\ (forall z,
        scan_entries z =
        errors (fold_left scan_raw
                  (filter (fun r => is_noise (snd r) = false) (raw_lines z))
                  (mkScan ∅ [])))
  /\ scan_entries [("build/2_run.txt", "Process completed with exit code ERROR")] = [].
Proof.
  repeat split.
  - intros name st idx line H. unfold scan_line. rewrite is_noise_lower.
    now destruct H as [-> | ->]; [| rewrite orb_true_r].
  - intros z o. rewrite scan_entries_first_by_key.
    intros [(r & -> & Hr)%list_elem_of_fmap _]%first_by_key_elem.
    apply list_elem_of_filter in Hr as [C Hr].
    destruct r as [[name idx] line]. exists name, idx, line.
    repeat split; [assumption |].
    unfold candidate in C. now destruct (is_noise line).
  - intros z. rewrite scan_entries_first_by_key, fold_scan_raw. simpl.
    rewrite list_filter_filter. do 2 f_equal. apply list_filter_iff.
    intros [[name idx] line]. unfold candidate. simpl.
    destruct (is_noise line); simpl; intuition congruence.
Qed.

Lemma noise_takes_precedence_witness :
  scan_line "build/2_run.txt" (mkScan ∅ []) 7 "PROCESS completed with exit code error"
  = mkScan ∅ []
  /\ exists name idx line,
       (name, idx, line) ∈ raw_lines [("build/2_run.txt", "Job defined at: x" +:+ nl +:+ "ERROR y")]
       /\ is_noise line = false
       /\ mkError "build/2_run" 2 "ERROR y" = occurrence_of (name, idx, line).
Proof.
  split.
  - apply (proj1 noise_takes_precedence). left. reflexivity.
  - apply (proj1 (proj2 noise_takes_precedence)). vm_compute. left.
Defined.

(** C7 (the code at an entry name with [.txt] inside it). [replace]
    removes every [.txt] of the name, not only the one at its end. *)
Theorem job_step_drops_every_txt :
  scan_entries [("lint .txt files/2_Check.txt", "ERROR: trailing space")]
  = [mkError "lint  files/2_Check" 1 "ERROR: trailing space"].
Proof. vm_compute. reflexivity. Qed.

(* ===================================================================== *)
(** ** Facts about the monad                                              *)
(* ===================================================================== *)

Lemma bind_ret_l {A B} (a : A) (k : A -> M B) : bind (ret a) k = k a.
Proof. unfold bind, ret. now destruct (k a). Qed.

Lemma bind_assoc {A B C} (m : M A) (k : A -> M B) (h : B -> M C) :
  bind (bind m k) h = bind m (fun a => bind (k a) h).
Proof.
  destruct m as [t [e|a]]; simpl; [reflexivity |].
  destruct (k a) as [t1 [e|b]]; simpl; [reflexivity |].
  destruct (h b) as [t2 r]. now rewrite app_assoc.
Qed.

Lemma outcome_bind_inr {A B} (m : M A) (k : A -> M B) b :
  outcome (bind m k) = inr b ->
  exists a, outcome m = inr a /\ outcome (k a) = inr b.
Proof.
  destruct m as [t [e|a]]; simpl; [discriminate |].
  destruct (k a) as [t1 r] eqn:E. simpl. intros ->. exists a. now rewrite E.
Qed.

Lemma outcome_bind {A B} (m : M A) (k : A -> M B) a :
  outcome m = inr a -> outcome (bind m k) = outcome (k a).
Proof.
  destruct m as [t r]. simpl. intros ->. now destruct (k a).
Qed.

Lemma bind_ext {A B} (m : M A) (k k' : A -> M B) :
  (forall a, k a = k' a) -> bind m k = bind m k'.
Proof. intros E. destruct m as [t [e|a]]; simpl; [reflexivity | now rewrite E]. Qed.

Lemma for_each_app {A S} (body : S -> A -> M S) st (xs ys : list A) :
  for_each body st (xs ++ ys) =
  bind (for_each body st xs) (fun st' => for_each body st' ys).
Proof.
  revert st. induction xs as [|x xs IH]; intros st; cbn [for_each app].
  - symmetry. exact (bind_ret_l st (fun st' => for_each body st' ys)).
  - rewrite bind_assoc. apply bind_ext. intros st'. apply IH.
Qed.

(* ===================================================================== *)
(** ** Facts about the advisor                                            *)
(* ===================================================================== *)

(** C4. When the lower-case error text holds [modulenotfounderror],
    [ai_fix] gives the fixed dependency suggestion of [rule_based_fix],
    and the only call it records is its own: the generator is not
    called.  The spec's example text is such a text. *)
Theorem rule_precedes_generator :
  (forall env error_line,
     str_in "modulenotfounderror" (lower error_line) = true ->
     ai_fix env error_line = ([Call_ai_fix error_line], inr dependency_fix))
  /\ (forall env,
        ai_fix env "ModuleNotFoundError: No module named 'foo'"
        = ([Call_ai_fix "ModuleNotFoundError: No module named 'foo'"],
           inr dependency_fix)).
Proof.
  assert (G : forall env error_line,
             str_in "modulenotfounderror" (lower error_line) = true ->
             ai_fix env error_line = ([Call_ai_fix error_line], inr dependency_fix)).
  { intros env error_line H. unfold ai_fix, rule_based_fix. rewrite H. reflexivity. }
  split; [exact G |]. intros env. apply G. reflexivity.
Qed.

Lemma rule_precedes_generator_witness :
  ai_fix five_env "E   ModuleNotFoundError: No module named 'requests'"
  = ([Call_ai_fix "E   ModuleNotFoundError: No module named 'requests'"],
     inr dependency_fix).
Proof. apply (proj1 rule_precedes_generator). reflexivity. Defined.

(** What [ai_fix] does when no rule applies. *)
Lemma ai_fix_generated env error_line :
  rule_based_fix error_line = None ->
  ai_fix env error_line =
  ([Call_ai_fix error_line; Call_llm (prompt_of error_line)],
   inr (let text := strip (generated_string (env_llm env (prompt_of error_line))) in
        if negb (str_in "Cause:" text) || negb (str_in "Fix:" text)
        then generic_fix else text)).
Proof.
  intros R. unfold ai_fix. rewrite R. simpl.
  now destruct (negb _ || negb _).
Qed.

Lemma rule_based_fix_cases error_line :
  rule_based_fix error_line = Some dependency_fix
  \/ rule_based_fix error_line = None.
Proof. unfold rule_based_fix. destruct (str_in _ _); auto. Qed.

Lemma ai_fix_returns env error_line :
  exists s, outcome (ai_fix env error_line) = inr s.
Proof.
  destruct (rule_based_fix_cases error_line) as [R|R].
  - exists dependency_fix. unfold ai_fix. now rewrite R.
  - rewrite (ai_fix_generated _ _ R). eauto.
Qed.

(** C5. [ai_fix] ends with a value, never with an exception, whatever
    the error text and whatever the generator answers, and the value
    holds both labels [Cause:] and [Fix:]; when no rule applies and the
    generator's string lacks one of the two labels (the empty string
    does), the value is the generic suggestion of lines 145-148. *)
Theorem advise_never_fails :
  (forall env error_line,
     exists s,
       outcome (ai_fix env error_line) = inr s
       /\ str_in "Cause:" s = true /\ str_in "Fix:" s = true)
  /\ (forall env error_line,
        rule_based_fix error_line = None ->
        str_in "Cause:" (generated_string (env_llm env (prompt_of error_line))) = false
        \/ str_in "Fix:" (generated_string (env_llm env (prompt_of error_line))) = false ->
        outcome (ai_fix env error_line) = inr generic_fix)
  /\ (forall env error_line,
        rule_based_fix error_line = None ->
        generated_string (env_llm env (prompt_of error_line)) = "" ->
        outcome (ai_fix env error_line) = inr generic_fix).
Proof.
  assert (G : forall env error_line,
     rule_based_fix error_line = None ->
     str_in "Cause:" (generated_string (env_llm env (prompt_of error_line))) = false
     \/ str_in "Fix:" (generated_string (env_llm env (prompt_of error_line))) = false ->
     outcome (ai_fix env error_line) = inr generic_fix).
  { intros env error_line R H. rewrite (ai_fix_generated _ _ R). cbn [outcome snd].
    set (g := generated_string _) in *.
    destruct (str_in "Cause:" (strip g)) eqn:C; [| reflexivity].
    destruct (str_in "Fix:" (strip g)) eqn:F; [| reflexivity].
    apply str_in_strip in C, F. destruct H; congruence. }
  repeat split.
  - intros env error_line.
    destruct (rule_based_fix_cases error_line) as [R|R].
    + exists dependency_fix. unfold ai_fix. rewrite R. repeat split.
    + rewrite (ai_fix_generated _ _ R). cbn [outcome snd].
      set (t := strip _).
      destruct (str_in "Cause:" t) eqn:C; [| exists generic_fix; repeat split].
      destruct (str_in "Fix:" t) eqn:F; [| exists generic_fix; repeat split].
      exists t. repeat split; assumption.
  - exact G.
  - intros env error_line R E. apply G; [exact R |]. rewrite E. now left.
Qed.

Lemma advise_never_fails_witness :
  outcome (ai_fix (mkEnv [] (fun _ => None) (fun _ => None) (fun _ => None)
                     (fun _ => mkGenerated (Some "Fix: restart the runner") None))
             "ZeroDivisionError: division by zero")
  = inr generic_fix
  /\ outcome (ai_fix five_env "ZeroDivisionError: division by zero") = inr generic_fix.
Proof.
  split.
  - apply (proj1 (proj2 advise_never_fails)); [reflexivity | left; reflexivity].
  - apply (proj2 (proj2 advise_never_fails)); reflexivity.
Defined.

(* ===================================================================== *)
(** ** Facts about the monitoring pass                                     *)
(* ===================================================================== *)

(** [annotate] never raises and adds one element for every error. *)
Lemma annotate_outcome env acc idx errs :
  exists info,
    outcome (annotate env acc idx errs) = inr info
    /\ length info = length acc + length errs.
Proof.
  revert acc idx. induction errs as [|err errs IH]; intros acc idx; cbn [annotate].
  - exists acc. split; [reflexivity | simpl; lia].
  - destruct (ai_fix_returns env (error_line err)) as (s & E).
    rewrite (outcome_bind _ _ _ E).
    destruct (IH (acc ++ [mkAnnotated idx (job_step err) (line_no err) (error_line err) s])
                 (S idx)) as (info & -> & L).
    exists info. split; [reflexivity |]. rewrite L, length_app. simpl. lia.
Qed.

(** The body of the loop, by the cases of lines 165-197. *)
Lemma monitor_body_absent env st wf :
  env_latest_run env (wf_id wf) = None ->
  monitor_body env st wf = ([Call_latest_run (wf_id wf)], inr st).
Proof. intros L. unfold monitor_body, latest_run. simpl. now rewrite L. Qed.

Lemma monitor_body_success env st wf run :
  env_latest_run env (wf_id wf) = Some run ->
  conclusion run = "success" ->
  monitor_body env st wf =
  ([Call_latest_run (wf_id wf)],
   inr (mkLoop (passed st + 1) (failed st) (all_results st))).
Proof. intros L C. unfold monitor_body, latest_run. simpl. now rewrite L, C. Qed.

Lemma monitor_body_other env st wf run :
  env_latest_run env (wf_id wf) = Some run ->
  conclusion run <> "success" -> conclusion run <> "failure" ->
  monitor_body env st wf = ([Call_latest_run (wf_id wf)], inr st).
Proof.
  intros L C1 C2. unfold monitor_body, latest_run. simpl. rewrite L.
  apply String.eqb_neq in C1, C2. now rewrite C1, C2.
Qed.

Lemma monitor_body_no_logs env st wf run :
  env_latest_run env (wf_id wf) = Some run ->
  conclusion run = "failure" ->
  truthy (env_download_logs env (run_id run)) = false ->
  monitor_body env st wf =
  ([Call_latest_run (wf_id wf); Call_download_logs (run_id run)],
   inr (mkLoop (passed st) (failed st + 1) (all_results st))).
Proof.
  intros L C T. unfold monitor_body, latest_run, download_logs. simpl.
  rewrite L, C. simpl. now rewrite T.
Qed.

Lemma monitor_body_corrupt env st wf run logs :
  env_latest_run env (wf_id wf) = Some run ->
  conclusion run = "failure" ->
  env_download_logs env (run_id run) = Some logs -> logs <> [] ->
  env_ZipFile env logs = None ->
  monitor_body env st wf =
  ([Call_latest_run (wf_id wf); Call_download_logs (run_id run);
    Call_extract_all_errors logs],
   inl BadZipFile).
Proof.
  intros L C D N Z. unfold monitor_body, latest_run, download_logs, extract_all_errors.
  simpl. rewrite L, C. simpl. rewrite D. destruct logs as [|b logs]; [congruence |].
  simpl. now rewrite Z.
Qed.

Lemma monitor_body_report env st wf run logs z :
  env_latest_run env (wf_id wf) = Some run ->
  conclusion run = "failure" ->
  env_download_logs env (run_id run) = Some logs -> logs <> [] ->
  env_ZipFile env logs = Some z ->
  monitor_body env st wf =
  ([Call_latest_run (wf_id wf); Call_download_logs (run_id run);
    Call_extract_all_errors logs] ++ trace (annotate env [] 1 (scan_entries z)),
   match outcome (annotate env [] 1 (scan_entries z)) with
   | inl e => inl e
   | inr errors_info =>
       inr (mkLoop (passed st) (failed st + 1)
              (all_results st ++ [mkResult (wf_name wf) (run_id run) errors_info]))
   end).
Proof.
  intros L C D N Z. unfold monitor_body, latest_run, download_logs, extract_all_errors.
  simpl. rewrite L, C. simpl. rewrite D. destruct logs as [|b logs]; [congruence |].
  simpl. rewrite Z. simpl.
  destruct (annotate env [] 1 (scan_entries z)) as [t [e|info]]; simpl;
    rewrite ?app_nil_r; reflexivity.
Qed.

(** C8. For a workflow whose latest run concluded [failure] and whose
    download gave [None] or no bytes, the body of the loop adds one to
    [failed], leaves [passed] and [all_results] as they were, and calls
    only [latest_run] and [download_logs]: neither [extract_all_errors]
    nor [ai_fix]. *)
Theorem failed_run_without_logs env st wf run :
  env_latest_run env (wf_id wf) = Some run ->
  conclusion run = "failure" ->
  truthy (env_download_logs env (run_id run)) = false ->
  monitor_body env st wf =
  ([Call_latest_run (wf_id wf); Call_download_logs (run_id run)],
   inr (mkLoop (passed st) (failed st + 1) (all_results st))).
Proof. apply monitor_body_no_logs. Qed.

Lemma failed_run_without_logs_witness :
  monitor_body no_logs_env (mkLoop 3 1 []) (mkWorkflow 1 "ci") =
  ([Call_latest_run 1; Call_download_logs 7], inr (mkLoop 3 2 [])).
Proof.
  apply (failed_run_without_logs no_logs_env (mkLoop 3 1 []) (mkWorkflow 1 "ci")
           (mkRun 7 "failure")); reflexivity.
Defined.

(** C10. For a workflow whose latest run concluded [failure], whose logs
    download and open, and in whose archive the scan finds no error, the
    body of the loop still appends a result, with an empty list of
    errors; so a pass can give more results than runs with an annotated
    error. *)
Theorem failed_run_without_errors :
  (forall env st wf run logs z,
     env_latest_run env (wf_id wf) = Some run ->
     conclusion run = "failure" ->
     env_download_logs env (run_id run) = Some logs -> logs <> [] ->
     env_ZipFile env logs = Some z ->
     scan_entries z = [] ->
     monitor_body env st wf =
     ([Call_latest_run (wf_id wf); Call_download_logs (run_id run);
       Call_extract_all_errors logs],
      inr (mkLoop (passed st) (failed st + 1)
             (all_results st ++ [mkResult (wf_name wf) (run_id run) []]))))
  /\ (exists env sm,
        outcome (monitor env) = inr sm
        /\ length (filter (fun r => r_errors r <> []) (results sm))
           < length (results sm)).
Proof.
  split.
  - intros env st wf run logs z L C D N Z E.
    rewrite (monitor_body_report _ _ _ _ _ _ L C D N Z), E. reflexivity.
  - exists quiet_env. eexists. split; [vm_compute; reflexivity |].
    vm_compute. lia.
Qed.

Lemma failed_run_without_errors_witness :
  monitor_body quiet_env (mkLoop 0 0 []) (mkWorkflow 0 "build") =
  ([Call_latest_run 0; Call_download_logs 100; Call_extract_all_errors [Byte.x00]],
   inr (mkLoop 0 1 [mkResult "build" 100 []])).
Proof.
  apply (proj1 failed_run_without_errors quiet_env (mkLoop 0 0 [])
           (mkWorkflow 0 "build") (mkRun 100 "failure") [Byte.x00]
           [("build/1_test.txt", "all good" +:+ nl +:+ "done")]);
    try reflexivity.
  discriminate.
Defined.

(** *** Counting over the whole pass *)

Lemma count_concluded_cons env c wf wfs :
  count_concluded env c (wf :: wfs) =
  (if concluded env c wf then 1 else 0) + count_concluded env c wfs.
Proof.
  unfold count_concluded. destruct (concluded env c wf) eqn:E.
  - now rewrite filter_cons_True.
  - rewrite filter_cons_False; [reflexivity | congruence].
Qed.

(** What one step does to the two counters, whenever it returns. *)
Lemma monitor_body_counts env st wf st' :
  outcome (monitor_body env st wf) = inr st' ->
  passed st' = passed st + (if concluded env "success" wf then 1 else 0)
  /\ failed st' = failed st + (if concluded env "failure" wf then 1 else 0).
Proof.
  unfold concluded.
  destruct (env_latest_run env (wf_id wf)) as [run|] eqn:L.
  - destruct (String.eqb_spec (conclusion run) "success") as [C|C].
    + rewrite (monitor_body_success _ _ _ _ L C). rewrite C. simpl.
      intros [= <-]. simpl. lia.
    + destruct (String.eqb_spec (conclusion run) "failure") as [F|F].
      * destruct (truthy (env_download_logs env (run_id run))) eqn:T.
        -- destruct (env_download_logs env (run_id run)) as [[|b logs]|] eqn:D;
             try discriminate T.
           destruct (env_ZipFile env (b :: logs)) as [z|] eqn:Z.
           ++ rewrite (monitor_body_report _ _ _ _ _ _ L F D ltac:(discriminate) Z).
              cbn [outcome snd].
              destruct (outcome (annotate _ _ _ _)); [discriminate |].
              intros [= <-]. simpl. lia.
           ++ rewrite (monitor_body_corrupt _ _ _ _ _ L F D ltac:(discriminate) Z).
              discriminate.
        -- rewrite (monitor_body_no_logs _ _ _ _ L F T). intros [= <-]. simpl. lia.
      * rewrite (monitor_body_other _ _ _ _ L C F). intros [= <-]. lia.
  - rewrite (monitor_body_absent _ _ _ L). intros [= <-]. lia.
Qed.

Lemma for_each_counts env wfs st st' :
  outcome (for_each (monitor_body env) st wfs) = inr st' ->
  passed st' = passed st + count_concluded env "success" wfs
  /\ failed st' = failed st + count_concluded env "failure" wfs.
Proof.
  revert st. induction wfs as [|wf wfs IH]; intros st; cbn [for_each].
  - intros [= <-]. unfold count_concluded. simpl. lia.
  - intros (st1 & H1 & H2)%outcome_bind_inr.
    apply monitor_body_counts in H1. apply IH in H2.
    rewrite !count_concluded_cons. lia.
Qed.

(** With logs that download and open, a step returns, and appends a
    result exactly for a failed run. *)
Lemma monitor_body_usable env st wf :
  logs_usable env [wf] ->
  exists st',
    outcome (monitor_body env st wf) = inr st'
    /\ length (all_results st') =
       length (all_results st) + (if concluded env "failure" wf then 1 else 0).
Proof.
  intros U. unfold concluded.
  destruct (env_latest_run env (wf_id wf)) as [run|] eqn:L.
  - destruct (String.eqb_spec (conclusion run) "success") as [C|C].
    + rewrite (monitor_body_success _ _ _ _ L C). rewrite C.
      eexists. split; [reflexivity |]. simpl. lia.
    + destruct (String.eqb_spec (conclusion run) "failure") as [F|F].
      * destruct (U wf run (list_elem_of_here _ _) L F) as (logs & D & T & [z Z]).
        assert (N : logs <> []) by (intros ->; discriminate T).
        rewrite (monitor_body_report _ _ _ _ _ _ L F D N Z). cbn [outcome snd].
        destruct (annotate_outcome env [] 1 (scan_entries z)) as (info & -> & _).
        eexists. split; [reflexivity |]. simpl. now rewrite length_app.
      * rewrite (monitor_body_other _ _ _ _ L C F).
        eexists. split; [reflexivity |]. lia.
  - rewrite (monitor_body_absent _ _ _ L). eexists. split; [reflexivity |]. lia.
Qed.

Lemma for_each_usable env wfs st :
  logs_usable env wfs ->
  exists st',
    outcome (for_each (monitor_body env) st wfs) = inr st'
    /\ length (all_results st') =
       length (all_results st) + count_concluded env "failure" wfs.
Proof.
  revert st. induction wfs as [|wf wfs IH]; intros st U; cbn [for_each].
  - exists st. split; [reflexivity |]. unfold count_concluded. simpl. lia.
  - destruct (monitor_body_usable env st wf) as (st1 & E1 & L1).
    { intros w run [->|H]%elem_of_cons; [| inversion H]. apply U. now left. }
    destruct (IH st1) as (st2 & E2 & L2).
    { intros w run H. apply U. now right. }
    exists st2. rewrite (outcome_bind _ _ _ E1). split; [exact E2 |].
    rewrite count_concluded_cons. lia.
Qed.

Lemma monitor_unfold env :
  monitor env =
  bind (list_workflows env) (fun workflows =>
  bind (for_each (monitor_body env) (mkLoop 0 0 []) workflows) (fun st =>
  ret (mkSummary (length workflows) (passed st) (failed st) (all_results st)))).
Proof. reflexivity. Qed.

Lemma monitor_pair env :
  monitor env =
  let '(t, r) := for_each (monitor_body env) (mkLoop 0 0 []) (env_list_workflows env) in
  (Call_list_workflows :: t,
   match r with
   | inl e => inl e
   | inr st =>
       inr (mkSummary (length (env_list_workflows env))
              (passed st) (failed st) (all_results st))
   end).
Proof.
  rewrite monitor_unfold. unfold list_workflows. simpl.
  destruct (for_each _ _ _) as [t [e|st]]; simpl; rewrite ?app_nil_r; reflexivity.
Qed.

Lemma monitor_outcome env :
  outcome (monitor env) =
  match outcome (for_each (monitor_body env) (mkLoop 0 0 []) (env_list_workflows env)) with
  | inl e => inl e
  | inr st =>
      inr (mkSummary (length (env_list_workflows env))
             (passed st) (failed st) (all_results st))
  end.
Proof.
  rewrite monitor_unfold. unfold list_workflows. simpl.
  destruct (for_each _ _ _) as [t [e|st]]; reflexivity.
Qed.

Lemma count_concluded_conclusions env c wfs :
  count_concluded env c wfs =
  length (filter (fun o => o = Some c)
            (map (fun wf => conclusion <$> env_latest_run env (wf_id wf)) wfs)).
Proof.
  induction wfs as [|wf wfs IH]; [reflexivity |].
  rewrite count_concluded_cons, IH. simpl. unfold concluded.
  destruct (env_latest_run env (wf_id wf)) as [run|]; simpl.
  - destruct (String.eqb_spec (conclusion run) c) as [->|N].
    + now rewrite filter_cons_True.
    + rewrite filter_cons_False; [reflexivity | congruence].
  - rewrite filter_cons_False; [reflexivity | congruence].
Qed.

(** C6. A step whose run concluded [success] adds one to [passed] only;
    one whose run concluded [failure] adds one to [failed] only; any
    other conclusion, or no run, changes neither counter.  A pass that
    returns gives the number of workflows listed as total and the numbers
    of [success] and [failure] conclusions as the two counters; when the
    logs of the failed runs download and open it returns, with one result
    for every failed run.  For the conclusions success, success, failure,
    failure, cancelled that gives 2 passed, 2 failed, 5 in total and 2
    results. *)
Theorem counters_follow_conclusions :
  (forall env st wf,
     concluded env "success" wf = true ->
     outcome (monitor_body env st wf) =
     inr (mkLoop (passed st + 1) (failed st) (all_results st)))
  /\ (forall env st wf st',
        concluded env "failure" wf = true ->
        outcome (monitor_body env st wf) = inr st' ->
        passed st' = passed st /\ failed st' = failed st + 1)
  /\ (forall env st wf,
        concluded env "success" wf = false ->
        concluded env "failure" wf = false ->
        outcome (monitor_body env st wf) = inr st)
  /\ (forall env sm,
        outcome (monitor env) = inr sm ->
        total_workflows sm = length (env_list_workflows env)
        /\ passed_count sm = count_concluded env "success" (env_list_workflows env)
        /\ failed_count sm = count_concluded env "failure" (env_list_workflows env))
  /\ (forall env,
        logs_usable env (env_list_workflows env) ->
        exists sm,
          outcome (monitor env) = inr sm
          /\ length (results sm) =
             count_concluded env "failure" (env_list_workflows env))
  /\ (forall env,
        logs_usable env (env_list_workflows env) ->
        map (fun wf => conclusion <$> env_latest_run env (wf_id wf))
            (env_list_workflows env)
        = [Some "success"; Some "success"; Some "failure"; Some "failure";
           Some "cancelled"] ->
        exists sm,
          outcome (monitor env) = inr sm
          /\ passed_count sm = 2 /\ failed_count sm = 2
          /\ total_workflows sm = 5 /\ length (results sm) = 2).
Proof.
  assert (W : forall env sm,
             outcome (monitor env) = inr sm ->
             total_workflows sm = length (env_list_workflows env)
             /\ passed_count sm = count_concluded env "success" (env_list_workflows env)
             /\ failed_count sm = count_concluded env "failure" (env_list_workflows env)).
  { intros env sm. rewrite monitor_outcome.
    destruct (outcome (for_each _ _ _)) as [e|st] eqn:E; [discriminate |].
    intros [= <-]. apply for_each_counts in E. simpl in *. tauto. }
  assert (U : forall env,
             logs_usable env (env_list_workflows env) ->
             exists sm,
               outcome (monitor env) = inr sm
               /\ length (results sm) =
                  count_concluded env "failure" (env_list_workflows env)).
  { intros env H.
    destruct (for_each_usable env _ (mkLoop 0 0 []) H) as (st & E & L).
    rewrite monitor_outcome, E. eexists. split; [reflexivity |]. exact L. }
  repeat split.
  - intros env st wf. unfold concluded.
    destruct (env_latest_run env (wf_id wf)) as [run|] eqn:L; [| discriminate].
    intros C%String.eqb_eq. now rewrite (monitor_body_success _ _ _ _ L C).
  - pose proof (monitor_body_counts env st wf st' H0) as [P _].
    rewrite P. unfold concluded in *.
    destruct (env_latest_run env (wf_id wf)) as [run|]; [| discriminate].
    apply String.eqb_eq in H. rewrite H. simpl. lia.
  - pose proof (monitor_body_counts env st wf st' H0) as [_ F].
    rewrite F, H. reflexivity.
  - intros env st wf. unfold concluded.
    destruct (env_latest_run env (wf_id wf)) as [run|] eqn:L.
    + intros C%String.eqb_neq F%String.eqb_neq.
      now rewrite (monitor_body_other _ _ _ _ L C F).
    + intros _ _. now rewrite (monitor_body_absent _ _ _ L).
  - apply W. assumption.
  - apply W. assumption.
  - apply W. assumption.
  - exact U.
  - intros env H E. destruct (U env H) as (sm & O & R).
    destruct (W env sm O) as (T & P & F).
    exists sm. split; [exact O |].
    rewrite P, F, T, R, !count_concluded_conclusions, E.
    rewrite <- (length_map (fun wf => conclusion <$> env_latest_run env (wf_id wf))), E.
    repeat split.
Qed.

Lemma five_env_logs_usable : logs_usable five_env (env_list_workflows five_env).
Proof.
  intros wf run H L C. apply list_elem_of_In in H. simpl in H.
  repeat (destruct H as [<-|H]; [vm_compute in L; injection L as <- |]);
    try (vm_compute in C; discriminate C); try contradiction.
  - exists [Byte.x02]. repeat split. vm_compute. eauto.
  - exists [Byte.x03]. repeat split. vm_compute. eauto.
Qed.

Lemma counters_follow_conclusions_witness :
  (exists sm,
     outcome (monitor five_env) = inr sm
     /\ passed_count sm = 2 /\ failed_count sm = 2
     /\ total_workflows sm = 5 /\ length (results sm) = 2)
  /\ outcome (monitor_body five_env (mkLoop 4 2 []) (mkWorkflow 1 "docs"))
     = inr (mkLoop 5 2 [])
  /\ outcome (monitor_body five_env (mkLoop 4 2 []) (mkWorkflow 4 "deploy"))
     = inr (mkLoop 4 2 []).
Proof.
  destruct counters_follow_conclusions as (S1 & _ & S3 & _ & _ & S6).
  split; [| split].
  - apply S6; [exact five_env_logs_usable | reflexivity].
  - apply (S1 five_env (mkLoop 4 2 [])). reflexivity.
  - apply (S3 five_env (mkLoop 4 2 [])); reflexivity.
Defined.

(** C1 (as the code has it). When a workflow's latest run concluded
    [failure] and the download gave bytes, not none, that do not open as
    an archive, [extract_all_errors] raises and nothing catches the
    exception: if the workflows before it were handled without an
    exception, the pass ends with [BadZipFile] and no summary, and its
    last call is the extraction for that run, so no later workflow is
    visited. *)
Theorem corrupt_archive_aborts_pass env pre wf post st run logs :
  env_list_workflows env = pre ++ wf :: post ->
  outcome (for_each (monitor_body env) (mkLoop 0 0 []) pre) = inr st ->
  env_latest_run env (wf_id wf) = Some run ->
  conclusion run = "failure" ->
  env_download_logs env (run_id run) = Some logs -> logs <> [] ->
  env_ZipFile env logs = None ->
  outcome (monitor env) = inl BadZipFile
  /\ trace (monitor env) =
     Call_list_workflows
     :: trace (for_each (monitor_body env) (mkLoop 0 0 []) pre)
     ++ [Call_latest_run (wf_id wf); Call_download_logs (run_id run);
         Call_extract_all_errors logs].
Proof.
  intros E P L C D N Z.
  rewrite monitor_pair, E, for_each_app.
  cbn [for_each].
  destruct (for_each (monitor_body env) (mkLoop 0 0 []) pre) as [t r].
  simpl in P. subst r. cbn [bind trace fst].
  rewrite (monitor_body_corrupt _ _ _ _ _ L C D N Z). cbn [bind].
  split; reflexivity.
Qed.

Lemma corrupt_archive_aborts_pass_witness :
  outcome (monitor corrupt_env) = inl BadZipFile
  /\ trace (monitor corrupt_env) =
     [Call_list_workflows; Call_latest_run 0; Call_latest_run 1;
      Call_download_logs 101; Call_extract_all_errors [Byte.x01]].
Proof.
  apply (corrupt_archive_aborts_pass corrupt_env
           [mkWorkflow 0 "lint"] (mkWorkflow 1 "build") [mkWorkflow 2 "docs"]
           (mkLoop 1 0 []) (mkRun 101 "failure") [Byte.x01]);
    try reflexivity.
  discriminate.
Defined.

(** C1 (the claim at a repository with one corrupt archive). The second
    workflow's run concluded [failure], its download gave one byte, the
    byte does not open as an archive, and the pass ends with the
    exception instead of a summary. *)
Lemma corrupt_archive_not_recovered :
  mkWorkflow 1 "build" ∈ env_list_workflows corrupt_env
  /\ env_latest_run corrupt_env 1 = Some (mkRun 101 "failure")
  /\ env_download_logs corrupt_env 101 = Some [Byte.x01]
  /\ env_ZipFile corrupt_env [Byte.x01] = None
  /\ outcome (monitor corrupt_env) = inl BadZipFile
  /\ ~ (exists sm, outcome (monitor corrupt_env) = inr sm).
Proof.
  repeat split.
  - vm_compute. right. left.
  - intros [sm H]. vm_compute in H. discriminate H.
Qed.

(* ===================================================================== *)
(** ** More facts about the scan                                           *)
(* ===================================================================== *)

Lemma first_by_key_sublist seen os : first_by_key seen os `sublist_of` os.
Proof.
  revert seen. induction os as [|o os IH]; intros seen; simpl.
  - constructor.
  - destruct (decide (dedup_key o ∈ seen)).
    + apply sublist_cons, IH.
    + apply sublist_skip, IH.
Qed.

Lemma first_by_key_nil os : first_by_key ∅ os = [] -> os = [].
Proof.
  destruct os as [|o os]; [reflexivity |]. simpl.
  rewrite decide_False by apply not_elem_of_empty. discriminate.
Qed.

Lemma numbered_from_elem name k lines n i l :
  (n, i, l) ∈ numbered_from name k lines ->
  n = name /\ k <= i /\ lines !! (i - k) = Some l.
Proof.
  revert k. induction lines as [|x lines IH]; intros k H; simpl in H.
  - inversion H.
  - apply elem_of_cons in H as [[= -> -> ->]|H].
    + rewrite Nat.sub_diag. repeat split. lia.
    + destruct (IH _ H) as (-> & L & E). repeat split; [lia |].
      replace (i - k) with (S (i - S k)) by lia. exact E.
Qed.

Lemma raw_lines_elem z name idx line :
  (name, idx, line) ∈ raw_lines z ->
  exists text,
    (name, text) ∈ z /\ 1 <= idx /\ splitlines text !! (idx - 1) = Some line.
Proof.
  unfold raw_lines. rewrite list_elem_of_In, in_flat_map.
  intros ([n text] & I & H). apply list_elem_of_In in I, H. simpl in H.
  apply numbered_from_elem in H as (-> & L & E). now exists text.
Qed.

(** X1. The scan gives no occurrence exactly when no line of the archive
    is an error line that is not noise; an archive without entries, or
    with empty files only, is such an archive. *)
Theorem scan_empty_iff (z : entries) :
  scan_entries z = [] <-> forall r, r ∈ raw_lines z -> candidate r = false.
Proof.
  rewrite scan_entries_first_by_key. split.
  - intros E r Hr. apply first_by_key_nil in E.
    destruct (candidate r) eqn:C; [| reflexivity].
    assert (I : occurrence_of r ∈ map occurrence_of
                  (filter (fun r => candidate r = true) (raw_lines z))).
    { apply list_elem_of_fmap_2, list_elem_of_filter. now split. }
    rewrite E in I. inversion I.
  - intros F. rewrite filter_none; [reflexivity |].
    intros r Hr C. rewrite (F r Hr) in C. discriminate.
Qed.

Lemma scan_empty_iff_witness :
  scan_entries [("build/1_setup.txt", "Run actions/checkout@v4" +:+ nl +:+ "done");
                ("build/2_post.txt", "")] = [].
Proof.
  apply (proj2 (scan_empty_iff _)). intros r H. apply list_elem_of_In in H.
  vm_compute in H. destruct H as [<-|[<-|[]]]; reflexivity.
Defined.

(** X2. The occurrences come out in the order in which their lines are
    visited: the result is a subsequence of the occurrences of the error
    lines, so it is never longer than the number of lines read. *)
Theorem scan_keeps_order (z : entries) :
  scan_entries z `sublist_of`
    map occurrence_of (filter (fun r => candidate r = true) (raw_lines z))
  /\ length (scan_entries z) <= length (raw_lines z).
Proof.
  assert (S : scan_entries z `sublist_of`
                map occurrence_of (filter (fun r => candidate r = true) (raw_lines z))).
  { rewrite scan_entries_first_by_key. apply first_by_key_sublist. }
  split; [exact S |].
  apply sublist_length in S. rewrite length_map in S.
  pose proof (length_filter (fun r => candidate r = true) (raw_lines z)). lia.
Qed.

(** X3. Every occurrence points into the archive: its line number is at
    least 1 and at most the number of lines of an entry, that line is an
    error line that is not noise, its text is the normalized line and its
    job step is made from the name of that entry. *)
Theorem occurrence_points_into_archive (z : entries) (o : ErrorOccurrence) :
  o ∈ scan_entries z ->
  exists name text line,
    (name, text) ∈ z
    /\ 1 <= line_no o <= length (splitlines text)
    /\ splitlines text !! (line_no o - 1) = Some line
    /\ is_noise line = false /\ is_error line = true
    /\ job_step o = replace ".txt" "" name
    /\ error_line o = normalize line.
Proof.
  rewrite scan_entries_first_by_key.
  intros [(r & -> & Hr)%list_elem_of_fmap _]%first_by_key_elem.
  apply list_elem_of_filter in Hr as [C Hr].
  destruct r as [[name idx] line].
  destruct (raw_lines_elem _ _ _ _ Hr) as (text & I & L & E).
  exists name, text, line. simpl.
  apply lookup_lt_Some in E as B.
  unfold candidate in C. destruct (is_noise line); [discriminate |].
  simpl in C. repeat split; try assumption. lia.
Qed.

Lemma occurrence_points_into_archive_witness :
  exists name text line,
    (name, text) ∈ [("build/3_test.txt", "collected 2 items" +:+ nl +:+ "E  KeyError: 'x'")]
    /\ 1 <= 2 <= length (splitlines text)
    /\ splitlines text !! (2 - 1) = Some line
    /\ is_noise line = false /\ is_error line = true
    /\ "build/3_test" = replace ".txt" "" name
    /\ "E  KeyError: 'x'" = normalize line.
Proof.
  apply (occurrence_points_into_archive
           [("build/3_test.txt", "collected 2 items" +:+ nl +:+ "E  KeyError: 'x'")]
           (mkError "build/3_test" 2 "E  KeyError: 'x'")).
  vm_compute. left.
Defined.

(** *** Trimmed texts *)

Lemma rstrip_idem (s : string) : rstrip (rstrip s) = rstrip s.
Proof.
  induction s as [|c s IH]; simpl; [reflexivity |].
  destruct (rstrip s) as [|d r] eqn:E.
  - destruct (is_space c) eqn:Sp; simpl; [reflexivity | now rewrite Sp].
  - simpl. simpl in IH. now rewrite IH.
Qed.

Lemma lstrip_id (s : string) :
  match s with String c _ => is_space c = false | EmptyString => True end ->
  lstrip s = s.
Proof. destruct s as [|c s]; simpl; [reflexivity | now intros ->]. Qed.

Lemma lstrip_head (s : string) :
  match lstrip s with String c _ => is_space c = false | EmptyString => True end.
Proof.
  induction s as [|c s IH]; simpl; [exact I |].
  destruct (is_space c) eqn:E; [exact IH | exact E].
Qed.

Lemma rstrip_head (s : string) :
  match s with String c _ => is_space c = false | EmptyString => True end ->
  match rstrip s with String c _ => is_space c = false | EmptyString => True end.
Proof.
  destruct s as [|c s]; simpl; [easy |]. intros E.
  destruct (rstrip s); [now rewrite E | exact E].
Qed.

Lemma strip_idem (s : string) : strip (strip s) = strip s.
Proof.
  unfold strip.
  rewrite (lstrip_id (rstrip (lstrip s))) by apply rstrip_head, lstrip_head.
  apply rstrip_idem.
Qed.

(** X4. The text of every occurrence is trimmed: trimming it again
    changes nothing, so it neither starts nor ends with white space. *)
Theorem occurrence_text_trimmed (z : entries) (o : ErrorOccurrence) :
  o ∈ scan_entries z ->
  strip (error_line o) = error_line o
  /\ match error_line o with
     | String c _ => is_space c = false
     | EmptyString => True
     end.
Proof.
  rewrite scan_entries_first_by_key.
  intros [(r & -> & _)%list_elem_of_fmap _]%first_by_key_elem.
  destruct r as [[name idx] line]. simpl. unfold normalize. split.
  - apply strip_idem.
  - apply rstrip_head, lstrip_head.
Qed.

Lemma occurrence_text_trimmed_witness :
  strip "boom" = "boom" /\ is_space "b" = false.
Proof.
  apply (occurrence_text_trimmed
           [("build/3_test.txt", "2024-05-01T12:00:00.000Z ##[error]   boom   ")]
           (mkError "build/3_test" 1 "boom")).
  vm_compute. left.
Defined.

(** *** The set [seen_errors] *)

Lemma scan_raw_invariant st r : scan_invariant st -> scan_invariant (scan_raw st r).
Proof.
  intros [S N]. destruct (candidate r) eqn:C.
  - destruct (decide (dedup_key (occurrence_of r) ∈ seen_errors st)) as [I|I].
    + rewrite (scan_raw_seen _ _ C I). now split.
    + rewrite (scan_raw_new _ _ C I). split; simpl.
      * rewrite map_app, list_to_set_app_L, <- S. simpl.
        rewrite union_empty_r_L. apply (comm_L (∪)).
      * rewrite map_app. apply NoDup_app. repeat split.
        -- exact N.
        -- intros k Hk [->|H]%elem_of_cons; [| inversion H].
           apply I. rewrite S. now apply elem_of_list_to_set.
        -- apply NoDup_singleton.
  - rewrite (scan_raw_skip _ _ C). now split.
Qed.

Lemma fold_scan_raw_invariant raws st :
  scan_invariant st -> scan_invariant (fold_left scan_raw raws st).
Proof.
  revert st. induction raws as [|r raws IH]; intros st H; simpl; [exact H |].
  apply IH, scan_raw_invariant, H.
Qed.

(** X5. When the scan of an archive ends, [seen_errors] holds exactly the
    lower-case texts of the occurrences in [errors], and as many elements
    as [errors] has occurrences. *)
Theorem seen_errors_mirror_errors (z : entries) :
  let st := fold_left scan_entry z (mkScan ∅ []) in
  seen_errors st = list_to_set (map dedup_key (errors st))
  /\ size (seen_errors st) = length (errors st).
Proof.
  intros st. assert (H : scan_invariant st).
  { unfold st. rewrite scan_entries_raw. apply fold_scan_raw_invariant.
    split; [reflexivity | constructor]. }
  destruct H as [S N]. split; [exact S |].
  rewrite S, size_list_to_set by exact N. apply length_map.
Qed.

(** *** Scanning more entries *)

Lemma raw_lines_app z1 z2 : raw_lines (z1 ++ z2) = raw_lines z1 ++ raw_lines z2.
Proof. unfold raw_lines. apply flat_map_app. Qed.

Lemma scan_raw_seen_mono st r : seen_errors st ⊆ seen_errors (scan_raw st r).
Proof.
  destruct (candidate r) eqn:C.
  - destruct (decide (dedup_key (occurrence_of r) ∈ seen_errors st)) as [I|I].
    + now rewrite (scan_raw_seen _ _ C I).
    + rewrite (scan_raw_new _ _ C I). simpl. apply union_subseteq_r.
  - now rewrite (scan_raw_skip _ _ C).
Qed.

Lemma fold_scan_raw_seen_mono raws st :
  seen_errors st ⊆ seen_errors (fold_left scan_raw raws st).
Proof.
  revert st. induction raws as [|r raws IH]; intros st; simpl; [reflexivity |].
  etrans; [apply (scan_raw_seen_mono st r) | apply IH].
Qed.

(** After the scan every error line's key is in [seen_errors]. *)
Lemma fold_scan_raw_sees raws st r :
  r ∈ raws -> candidate r = true ->
  dedup_key (occurrence_of r) ∈ seen_errors (fold_left scan_raw raws st).
Proof.
  revert st. induction raws as [|x raws IH]; intros st H C; [inversion H |].
  simpl. apply elem_of_cons in H as [->|H]; [| now apply IH].
  apply fold_scan_raw_seen_mono.
  destruct (decide (dedup_key (occurrence_of x) ∈ seen_errors st)) as [I|I].
  - now rewrite (scan_raw_seen _ _ C I).
  - rewrite (scan_raw_new _ _ C I). simpl. apply elem_of_union_l.
    now apply elem_of_singleton.
Qed.

(** Lines whose keys are all seen leave the state as it is. *)
Lemma fold_scan_raw_fixed raws st :
  (forall r, r ∈ raws -> candidate r = true ->
             dedup_key (occurrence_of r) ∈ seen_errors st) ->
  fold_left scan_raw raws st = st.
Proof.
  induction raws as [|x raws IH]; intros F; simpl; [reflexivity |].
  assert (E : scan_raw st x = st).
  { destruct (candidate x) eqn:C.
    - apply scan_raw_seen; [exact C |]. apply F; [now left | exact C].
    - now apply scan_raw_skip. }
  rewrite E. apply IH. intros r Hr. apply F. now right.
Qed.

(** X6. Scanning further entries only appends: the occurrences found in
    the first entries of an archive stay, in place and unchanged, at the
    head of the result for the whole archive. *)
Theorem scan_of_more_entries_extends (z1 z2 : entries) :
  scan_entries z1 `prefix_of` scan_entries (z1 ++ z2).
Proof.
  unfold scan_entries. rewrite fold_left_app, (scan_entries_raw z2), fold_scan_raw.
  eexists. reflexivity.
Qed.

(** X7. Entries that bring no new text add nothing: when every error
    line of [z2] has the lower-case normalized text of some error line of
    [z1], the scan of [z1 ++ z2] is the scan of [z1]; so scanning an
    archive twice in a row gives the result of scanning it once. *)
Theorem scan_ignores_repeated_entries :
  (forall z1 z2,
     (forall r, r ∈ raw_lines z2 -> candidate r = true ->
        exists r', r' ∈ raw_lines z1 /\ candidate r' = true
                   /\ dedup_key (occurrence_of r') = dedup_key (occurrence_of r)) ->
     scan_entries (z1 ++ z2) = scan_entries z1)
  /\ (forall z, scan_entries (z ++ z) = scan_entries z).
Proof.
  assert (G : forall z1 z2,
     (forall r, r ∈ raw_lines z2 -> candidate r = true ->
        exists r', r' ∈ raw_lines z1 /\ candidate r' = true
                   /\ dedup_key (occurrence_of r') = dedup_key (occurrence_of r)) ->
     scan_entries (z1 ++ z2) = scan_entries z1).
  { intros z1 z2 F. unfold scan_entries.
    rewrite fold_left_app, (scan_entries_raw z2), fold_scan_raw_fixed; [reflexivity |].
    intros r Hr C. destruct (F r Hr C) as (r' & Hr' & C' & <-).
    rewrite scan_entries_raw. now apply fold_scan_raw_sees. }
  split; [exact G |]. intros z. apply G. intros r Hr C. now exists r.
Qed.

Lemma scan_ignores_repeated_entries_witness :
  scan_entries ([("build/3_test.txt", "ERROR: boom")]
                ++ [("build/9_post.txt", "ok" +:+ nl +:+ "  error: BOOM  ")])
  = scan_entries [("build/3_test.txt", "ERROR: boom")].
Proof.
  apply (proj1 scan_ignores_repeated_entries). intros r H C.
  exists ("build/3_test.txt", 1, "ERROR: boom").
  apply list_elem_of_In in H. vm_compute in H.
  destruct H as [<-|[<-|[]]]; [discriminate C |].
  repeat split. vm_compute. left.
Defined.

(** *** What counts as noise and as an error *)

Lemma str_in_inv (p s : string) :
  str_in p s = true -> exists a b, s = a +:+ p +:+ b.
Proof.
  induction s as [|c s IH]; simpl.
  - rewrite orb_false_r. intros H. destruct (startswith_inv _ _ H) as [b ->].
    now exists "", b.
  - intros [H|H]%orb_true_iff.
    + destruct (startswith_inv _ _ H) as [b ->]. now exists "", b.
    + destruct (IH H) as (a & b & ->). now exists (String c a), b.
Qed.

Lemma str_in_trans (p q s : string) :
  str_in p q = true -> str_in q s = true -> str_in p s = true.
Proof.
  intros Hp Hq. destruct (str_in_inv _ _ Hq) as (a & b & ->).
  apply str_in_append_l, str_in_append_r, Hp.
Qed.

Lemma is_error_lower (line : string) :
  is_error line =
  str_in "##[error]" (lower line)
  || (str_in "error" (lower line)
  || (str_in "exception" (lower line)
  || (str_in "zerodivisionerror" (lower line)
  || (str_in "modulenotfounderror" (lower line)
  || str_in "no such file" (lower line))))).
Proof.
  unfold is_error. rewrite re_search_ci_lower. cbn [existsb error_alternatives].
  now rewrite orb_false_r.
Qed.

(** X8. On lines whose characters all have code points 0..255: whether
    a line is noise and whether it is an error line depends only on its
    lower-case form; and a line is an error line exactly when that form
    holds [error], [exception] or [no such file]: the other three
    alternatives of the pattern of line 85 all hold [error].  (Beyond the
    range the pattern also finds texts such as one written with U+017F
    for [s], whose lower-case form holds none of the three.) *)
Theorem error_signal_is_three_words :
  (forall l1 l2,
     lower l1 = lower l2 -> is_noise l1 = is_noise l2 /\ is_error l1 = is_error l2)
  /\ (forall line,
        is_error line =
        str_in "error" (lower line) || str_in "exception" (lower line)
        || str_in "no such file" (lower line)).
Proof.
  split.
  - intros l1 l2 E. unfold is_noise, is_error.
    now rewrite !re_search_ci_lower, E.
  - intros line. rewrite is_error_lower.
    destruct (str_in "error" (lower line)) eqn:E.
    + simpl. apply orb_true_r.
    + assert (N : forall q, str_in "error" q = true -> str_in q (lower line) = false).
      { intros q Hq. destruct (str_in q (lower line)) eqn:Q; [| reflexivity].
        now rewrite (str_in_trans _ _ _ Hq Q) in E. }
      rewrite (N "##[error]"), (N "zerodivisionerror"), (N "modulenotfounderror")
        by reflexivity.
      reflexivity.
Qed.

Lemma error_signal_is_three_words_witness :
  is_noise "JOB DEFINED AT: ci.yml" = is_noise "job defined at: ci.yml"
  /\ is_error "JOB DEFINED AT: ci.yml" = is_error "job defined at: ci.yml".
Proof. apply (proj1 error_signal_is_three_words). reflexivity. Defined.

(** X9. Only a line whose first character is a digit can lose a prefix:
    any other line, also one with white space before the timestamp, is
    only trimmed. *)
Theorem normalize_needs_leading_digit (line : string) :
  match line with
  | String c _ => is_digit c = false
  | EmptyString => True
  end ->
  normalize line = strip line.
Proof.
  intros H. unfold normalize, re_sub_timestamp_marker, timestamp_marker.
  destruct line as [|c line]; [reflexivity |]. simpl re_digits. now rewrite H.
Qed.

Lemma normalize_needs_leading_digit_witness :
  normalize " 2024-05-01T12:00:00.000Z ##[error] Something broke"
  = strip " 2024-05-01T12:00:00.000Z ##[error] Something broke".
Proof. apply normalize_needs_leading_digit. reflexivity. Defined.

(* ===================================================================== *)
(** ** More facts about the advisor                                        *)
(* ===================================================================== *)

(** [strip] keeps every occurrence of a text that holds no white space. *)
Lemma startswith_str_in (p s : string) : startswith p s = true -> str_in p s = true.
Proof. intros H. destruct s; simpl; now rewrite H. Qed.

Lemma str_in_empty (p : string) : p <> "" -> str_in p "" = false.
Proof. destruct p; [congruence | reflexivity]. Qed.

Lemma str_in_lstrip (p s : string) :
  space_free p -> str_in p s = true -> str_in p (lstrip s) = true.
Proof.
  intros [N F]. destruct p as [|a p]; [congruence |]. simpl in F.
  apply andb_true_iff in F as [A%negb_true_iff _].
  induction s as [|c s IH]; [easy |]. simpl lstrip.
  destruct (is_space c) eqn:Sp; [| easy].
  cbn [str_in startswith]. destruct (Ascii.eqb_spec a c) as [->|_]; [congruence |].
  exact IH.
Qed.

Lemma startswith_rstrip (p s : string) :
  space_free p -> startswith p s = true -> startswith p (rstrip s) = true.
Proof.
  revert p. induction s as [|c s IH]; intros p [N F] H.
  - destruct p; [congruence | discriminate].
  - destruct p as [|a p]; [congruence |]. simpl in F, H.
    apply andb_true_iff in F as [A%negb_true_iff F].
    destruct (Ascii.eqb_spec a c) as [->|]; [| discriminate].
    simpl rstrip. destruct p as [|b p].
    + destruct (rstrip s); [rewrite A |]; simpl; now rewrite Ascii.eqb_refl.
    + assert (R : startswith (String b p) (rstrip s) = true).
      { apply IH; [| exact H]. split; [discriminate | exact F]. }
      destruct (rstrip s) as [|d r]; [discriminate R |].
      cbn [startswith]. now rewrite Ascii.eqb_refl.
Qed.

Lemma str_in_rstrip (p s : string) :
  space_free p -> str_in p s = true -> str_in p (rstrip s) = true.
Proof.
  intros P. induction s as [|c s IH]; [easy |].
  cbn [str_in]. intros [H|H]%orb_true_iff.
  - apply startswith_str_in, startswith_rstrip; assumption.
  - specialize (IH H). simpl rstrip.
    destruct (rstrip s) as [|d r].
    + rewrite str_in_empty in IH by apply P. discriminate.
    + cbn [str_in]. cbn [str_in] in IH. rewrite IH. apply orb_true_r.
Qed.

Lemma str_in_strip_keeps (p s : string) :
  space_free p -> str_in p s = true -> str_in p (strip s) = true.
Proof. intros P H. unfold strip. now apply str_in_rstrip, str_in_lstrip. Qed.

Lemma labels_space_free : space_free "Cause:" /\ space_free "Fix:".
Proof. repeat split; discriminate. Qed.

Lemma ai_fix_labelled env error_line :
  rule_based_fix error_line = None ->
  str_in "Cause:" (generated_string (env_llm env (prompt_of error_line))) = true ->
  str_in "Fix:" (generated_string (env_llm env (prompt_of error_line))) = true ->
  ai_fix env error_line =
  ([Call_ai_fix error_line; Call_llm (prompt_of error_line)],
   inr (strip (generated_string (env_llm env (prompt_of error_line))))).
Proof.
  intros R C F. rewrite (ai_fix_generated _ _ R). cbv zeta.
  rewrite (str_in_strip_keeps _ _ (proj1 labels_space_free) C).
  now rewrite (str_in_strip_keeps _ _ (proj2 labels_space_free) F).
Qed.

(** X10. When no rule applies and the generator's string holds both
    labels, wherever and in whichever order, [ai_fix] returns that string
    trimmed and otherwise unchanged, after exactly one call of the
    generator, with the prompt made from the error text. *)
Theorem generator_answer_returned_trimmed env error_line :
  rule_based_fix error_line = None ->
  str_in "Cause:" (generated_string (env_llm env (prompt_of error_line))) = true ->
  str_in "Fix:" (generated_string (env_llm env (prompt_of error_line))) = true ->
  ai_fix env error_line =
  ([Call_ai_fix error_line; Call_llm (prompt_of error_line)],
   inr (strip (generated_string (env_llm env (prompt_of error_line))))).
Proof. apply ai_fix_labelled. Qed.

Lemma generator_answer_returned_trimmed_witness :
  ai_fix mixed_env "exit status 2" =
  ([Call_ai_fix "exit status 2"; Call_llm (prompt_of "exit status 2")],
   inr ("Cause: the test step failed." +:+ nl +:+ "Fix: read the log above.")).
Proof.
  apply (generator_answer_returned_trimmed mixed_env "exit status 2"); reflexivity.
Defined.

(** *** The prompt *)

Lemma append_empty_r (a : string) : a +:+ "" = a.
Proof. induction a as [|x a IH]; simpl; [reflexivity | now rewrite IH]. Qed.

Lemma str_in_refl (s : string) : str_in s s = true.
Proof.
  apply startswith_str_in. rewrite <- (append_empty_r s) at 2.
  apply startswith_append.
Qed.

Lemma append_nonempty_r (a x : string) : x <> "" -> a +:+ x <> "".
Proof. destruct a; [easy | discriminate]. Qed.

Lemma rstrip_append (a x : string) :
  rstrip x = x -> x <> "" -> rstrip (a +:+ x) = a +:+ x.
Proof.
  intros R N. induction a as [|c a IH]; simpl; [easy |].
  rewrite IH. pose proof (append_nonempty_r a x N).
  destruct (a +:+ x); [congruence | reflexivity].
Qed.

Ltac nonempty := repeat first [discriminate | apply append_nonempty_r].

Lemma strip_prompt_of (error_line : string) :
  strip (prompt_of error_line) = prompt_of error_line.
Proof.
  unfold strip. rewrite lstrip_id by reflexivity. unfold prompt_of.
  repeat (apply rstrip_append; [| nonempty]). reflexivity.
Qed.

(** X11. The prompt holds the error text as it is, and it holds both
    labels itself; so when no rule applies and the generator only gives
    its prompt back, [ai_fix] takes that for a suggestion and returns the
    prompt. *)
Theorem echoed_prompt_is_accepted :
  (forall error_line,
     str_in error_line (prompt_of error_line) = true
     /\ str_in "Cause:" (prompt_of error_line) = true
     /\ str_in "Fix:" (prompt_of error_line) = true)
  /\ (forall env error_line,
        rule_based_fix error_line = None ->
        generated_string (env_llm env (prompt_of error_line)) = prompt_of error_line ->
        outcome (ai_fix env error_line) = inr (prompt_of error_line)).
Proof.
  assert (L : forall error_line,
             str_in error_line (prompt_of error_line) = true
             /\ str_in "Cause:" (prompt_of error_line) = true
             /\ str_in "Fix:" (prompt_of error_line) = true).
  { intros e. unfold prompt_of. repeat split.
    - do 5 apply str_in_append_l. apply str_in_append_r, str_in_refl.
    - do 10 apply str_in_append_l. now apply str_in_append_r.
    - now do 12 apply str_in_append_l. }
  split; [exact L |]. intros env e R G.
  destruct (L e) as (_ & C & F).
  rewrite (ai_fix_labelled env e R); rewrite G; try assumption.
  cbn [outcome snd]. now rewrite strip_prompt_of.
Qed.

Lemma echoed_prompt_is_accepted_witness :
  outcome (ai_fix (mkEnv [] (fun _ => None) (fun _ => None) (fun _ => None)
                     (fun prompt => mkGenerated (Some prompt) None))
             "npm ERR! missing script: build")
  = inr (prompt_of "npm ERR! missing script: build").
Proof.
  apply (proj2 echoed_prompt_is_accepted); reflexivity.
Defined.

(* ===================================================================== *)
(** ** More facts about the monitoring pass                                *)
(* ===================================================================== *)

Lemma trace_bind {A B} (m : M A) (k : A -> M B) a :
  outcome m = inr a -> trace (bind m k) = trace m ++ trace (k a).
Proof.
  destruct m as [t r]. simpl. intros ->. now destruct (k a).
Qed.

Lemma ai_fix_trace env error_line :
  trace (ai_fix env error_line) =
  Call_ai_fix error_line
  :: match rule_based_fix error_line with
     | Some _ => []
     | None => [Call_llm (prompt_of error_line)]
     end.
Proof.
  destruct (rule_based_fix_cases error_line) as [R|R]; rewrite R.
  - unfold ai_fix. now rewrite R.
  - now rewrite (ai_fix_generated _ _ R).
Qed.

(** What [annotate] returns and which calls it makes. *)
Lemma annotate_spec env acc idx errs :
  exists new,
    annotate env acc idx errs =
    (flat_map (fun e => trace (ai_fix env (error_line e))) errs, inr (acc ++ new))
    /\ map error_number new = seq idx (length errs)
    /\ map a_job_step new = map job_step errs
    /\ map a_line_no new = map line_no errs
    /\ map a_error_line new = map error_line errs
    /\ Forall (fun a => outcome (ai_fix env (a_error_line a)) = inr (suggestion a)) new.
Proof.
  revert acc idx. induction errs as [|e errs IH]; intros acc idx; cbn [annotate].
  - exists []. rewrite app_nil_r. repeat split; constructor.
  - destruct (ai_fix_returns env (error_line e)) as [s E].
    destruct (ai_fix env (error_line e)) as [t r] eqn:A. simpl in E. subst r.
    destruct (IH (acc ++ [mkAnnotated idx (job_step e) (line_no e) (error_line e) s])
                 (S idx)) as (new & An & N & J & L & T & F).
    exists (mkAnnotated idx (job_step e) (line_no e) (error_line e) s :: new).
    cbn [bind]. rewrite An. rewrite <- app_assoc. simpl. rewrite A. cbn [trace fst].
    repeat split; try (f_equal; assumption).
    constructor; [simpl; now rewrite A | exact F].
Qed.

(** X12. [annotate] never raises; it numbers the errors 1, 2, ... in
    their order, copies job step, line number and text of each, and adds
    to each what [ai_fix] returns for its text. *)
Theorem annotate_numbers_in_order env (errs : list ErrorOccurrence) :
  exists info,
    outcome (annotate env [] 1 errs) = inr info
    /\ map error_number info = seq 1 (length errs)
    /\ map a_job_step info = map job_step errs
    /\ map a_line_no info = map line_no errs
    /\ map a_error_line info = map error_line errs
    /\ Forall (fun a => outcome (ai_fix env (a_error_line a)) = inr (suggestion a)) info.
Proof.
  destruct (annotate_spec env [] 1 errs) as (new & -> & H).
  exists new. split; [reflexivity | exact H].
Qed.

Lemma omap_flat_map {A B C} (f : B -> option C) (g : A -> list B) (l : list A) :
  omap f (flat_map g l) = flat_map (fun a => omap f (g a)) l.
Proof.
  induction l as [|a l IH]; simpl; [reflexivity |]. now rewrite omap_app, IH.
Qed.

Lemma annotate_trace env acc idx (errs : list ErrorOccurrence) :
  let t := trace (annotate env acc idx errs) in
  ai_fix_calls t = map error_line errs
  /\ llm_calls t =
     map prompt_of (filter (fun e => rule_based_fix e = None) (map error_line errs))
  /\ latest_run_calls t = [] /\ download_calls t = [] /\ extract_calls t = [].
Proof.
  destruct (annotate_spec env acc idx errs) as (new & -> & _). cbn [trace fst].
  unfold ai_fix_calls, llm_calls, latest_run_calls, download_calls, extract_calls.
  rewrite !omap_flat_map.
  induction errs as [|e errs (IH1 & IH2 & IH3 & IH4 & IH5)]; [easy |].
  cbn [flat_map map]. rewrite IH1, IH2, IH3, IH4, IH5, !ai_fix_trace.
  destruct (rule_based_fix (error_line e)) as [s|] eqn:R.
  - rewrite filter_cons_False by congruence. easy.
  - rewrite filter_cons_True by exact R. easy.
Qed.

(** X13. [annotate] calls [ai_fix] once for every error, in order, with
    the text of that error; the generator is called only for the texts
    without [modulenotfounderror], once each, right after the [ai_fix]
    call for that text and with its prompt; these are all the calls it
    makes: none to [list_workflows], [latest_run], [download_logs] or
    [extract_all_errors]. *)
Theorem annotate_calls env acc idx (errs : list ErrorOccurrence) :
  trace (annotate env acc idx errs) =
    flat_map (fun e => Call_ai_fix e
                       :: if str_in "modulenotfounderror" (lower e)
                          then [] else [Call_llm (prompt_of e)])
             (map error_line errs)
  /\ ai_fix_calls (trace (annotate env acc idx errs)) = map error_line errs
  /\ llm_calls (trace (annotate env acc idx errs)) =
     map prompt_of
       (filter (fun e => str_in "modulenotfounderror" (lower e) = false)
               (map error_line errs))
  /\ (Call_list_workflows ∉ trace (annotate env acc idx errs))
  /\ latest_run_calls (trace (annotate env acc idx errs)) = []
  /\ download_calls (trace (annotate env acc idx errs)) = []
  /\ extract_calls (trace (annotate env acc idx errs)) = [].
Proof.
  destruct (annotate_trace env acc idx errs) as (A & L & R).
  split; [| split; [exact A | split; [| split; [| exact R]]]].
  - clear A L R.
    destruct (annotate_spec env acc idx errs) as (new & -> & _). cbn [trace fst].
    clear new. induction errs as [|e errs IH]; [reflexivity |].
    cbn [flat_map map]. rewrite IH, ai_fix_trace. unfold rule_based_fix.
    now destruct (str_in "modulenotfounderror" (lower (error_line e))).
  - rewrite L. f_equal.
    apply list_filter_iff. intros e. unfold rule_based_fix.
    destruct (str_in "modulenotfounderror" (lower e)); split; congruence.
  - destruct (annotate_spec env acc idx errs) as (new & -> & _). cbn [trace fst].
    rewrite list_elem_of_In, in_flat_map. intros (e & _ & H).
    rewrite ai_fix_trace in H. destruct (rule_based_fix (error_line e)); simpl in H;
      intuition discriminate.
Qed.

(** *** One step of the pass, whenever it returns *)

Lemma failed_run_of_Some env wf run :
  failed_run_of env wf = Some run <->
  env_latest_run env (wf_id wf) = Some run /\ conclusion run = "failure".
Proof.
  unfold failed_run_of. destruct (env_latest_run env (wf_id wf)) as [r|].
  - destruct (String.eqb_spec (conclusion r) "failure") as [F|F]; split.
    + now intros [= ->].
    + now intros [[= ->] _].
    + discriminate.
    + intros [[= ->] C]. contradiction.
  - split; [discriminate | now intros [? _]].
Qed.

Lemma failed_run_of_None env wf :
  failed_run_of env wf = None ->
  match env_latest_run env (wf_id wf) with
  | Some run => conclusion run <> "failure"
  | None => True
  end.
Proof.
  unfold failed_run_of. destruct (env_latest_run env (wf_id wf)) as [r|]; [| easy].
  now destruct (String.eqb_spec (conclusion r) "failure").
Qed.

Lemma result_of_archive_mono env wfs wfs' r :
  (forall wf, wf ∈ wfs -> wf ∈ wfs') ->
  result_of_archive env wfs r -> result_of_archive env wfs' r.
Proof.
  intros S (wf & run & logs & z & I & H). exists wf, run, logs, z.
  split; [now apply S | exact H].
Qed.

Lemma monitor_body_step env st wf st' :
  outcome (monitor_body env st wf) = inr st' ->
  exists tail,
    all_results st' = all_results st ++ tail
    /\ map result_key tail = option_list (report_of env wf)
    /\ Forall (result_of_archive env [wf]) tail
    /\ latest_run_calls (trace (monitor_body env st wf)) = [wf_id wf]
    /\ download_calls (trace (monitor_body env st wf))
       = option_list (run_id <$> failed_run_of env wf)
    /\ length (extract_calls (trace (monitor_body env st wf))) = length tail.
Proof.
  unfold report_of.
  destruct (failed_run_of env wf) as [run|] eqn:FR.
  - apply failed_run_of_Some in FR as FR'. destruct FR' as [L F].
    destruct (truthy (env_download_logs env (run_id run))) eqn:T.
    + destruct (env_download_logs env (run_id run)) as [[|b logs]|] eqn:D;
        try discriminate T.
      destruct (env_ZipFile env (b :: logs)) as [z|] eqn:Z.
      * rewrite (monitor_body_report _ _ _ _ _ _ L F D ltac:(discriminate) Z).
        cbn [outcome snd trace fst].
        destruct (annotate_spec env [] 1 (scan_entries z)) as (info & An & N & J & Li & Te & Fo).
        pose proof (annotate_trace env [] 1 (scan_entries z)) as (_ & _ & C1 & C2 & C3).
        rewrite An in *. cbn [outcome snd trace fst] in *. intros [= <-].
        exists [mkResult (wf_name wf) (run_id run) info]. cbn [all_results].
        repeat split.
        -- constructor; [| constructor].
           exists wf, run, (b :: logs), z. simpl.
           repeat split; try assumption; try discriminate. now left.
        -- unfold latest_run_calls in *. rewrite omap_app, C1. reflexivity.
        -- unfold download_calls in *. rewrite omap_app, C2. reflexivity.
        -- unfold extract_calls in *. rewrite omap_app, C3. reflexivity.
      * rewrite (monitor_body_corrupt _ _ _ _ _ L F D ltac:(discriminate) Z).
        discriminate.
    + rewrite (monitor_body_no_logs _ _ _ _ L F T). intros [= <-].
      exists []. simpl. rewrite app_nil_r. repeat split. constructor.
  - apply failed_run_of_None in FR as FN.
    destruct (env_latest_run env (wf_id wf)) as [run|] eqn:L.
    + destruct (String.eqb_spec (conclusion run) "success") as [C|C].
      * rewrite (monitor_body_success _ _ _ _ L C). intros [= <-].
        exists []. simpl. rewrite app_nil_r. repeat split. constructor.
      * rewrite (monitor_body_other _ _ _ _ L C FN). intros [= <-].
        exists []. simpl. rewrite app_nil_r. repeat split. constructor.
    + rewrite (monitor_body_absent _ _ _ L). intros [= <-].
      exists []. simpl. rewrite app_nil_r. repeat split. constructor.
Qed.

Lemma omap_cons_list {A B} (f : A -> option B) (x : A) (l : list A) :
  omap f (x :: l) = option_list (f x) ++ omap f l.
Proof. simpl. now destruct (f x). Qed.

Lemma for_each_step env wfs st st' :
  outcome (for_each (monitor_body env) st wfs) = inr st' ->
  exists tail,
    all_results st' = all_results st ++ tail
    /\ map result_key tail = omap (report_of env) wfs
    /\ Forall (result_of_archive env wfs) tail
    /\ latest_run_calls (trace (for_each (monitor_body env) st wfs)) = map wf_id wfs
    /\ download_calls (trace (for_each (monitor_body env) st wfs))
       = omap (fun wf => run_id <$> failed_run_of env wf) wfs
    /\ length (extract_calls (trace (for_each (monitor_body env) st wfs)))
       = length tail.
Proof.
  revert st. induction wfs as [|wf wfs IH]; intros st; cbn [for_each].
  - intros [= <-]. exists []. rewrite app_nil_r. repeat split. constructor.
  - intros H. destruct (outcome_bind_inr _ _ _ H) as (st1 & H1 & H2).
    rewrite (trace_bind _ _ _ H1).
    destruct (monitor_body_step _ _ _ _ H1) as (t1 & A1 & K1 & F1 & L1 & D1 & E1).
    destruct (IH _ H2) as (t2 & A2 & K2 & F2 & L2 & D2 & E2).
    exists (t1 ++ t2). rewrite A2, A1, <- app_assoc.
    unfold latest_run_calls, download_calls, extract_calls in *.
    rewrite !omap_app, !omap_cons_list, map_app, K1, K2, L1, L2, D1, D2.
    rewrite !length_app, E1, E2.
    repeat split. apply Forall_app. split.
    + eapply Forall_impl; [exact F1 |]. intros r. apply result_of_archive_mono.
      intros w [->|W]%elem_of_cons; [now left | inversion W].
    + eapply Forall_impl; [exact F2 |]. intros r. apply result_of_archive_mono.
      intros w W. now right.
Qed.

Lemma monitor_returns env sm :
  outcome (monitor env) = inr sm ->
  exists st,
    outcome (for_each (monitor_body env) (mkLoop 0 0 []) (env_list_workflows env))
    = inr st
    /\ sm = mkSummary (length (env_list_workflows env))
                      (passed st) (failed st) (all_results st)
    /\ trace (monitor env) =
       Call_list_workflows
       :: trace (for_each (monitor_body env) (mkLoop 0 0 []) (env_list_workflows env)).
Proof.
  rewrite monitor_pair.
  destruct (for_each _ _ _) as [t [e|st]]; simpl; [discriminate |].
  intros [= <-]. now exists st.
Qed.

(** X14. A pass that returns lists one result for every workflow whose
    latest run concluded [failure] and whose download gave bytes, with
    the name of the workflow and the run, in the order of the listing;
    no other workflow gets a result. *)
Theorem results_follow_listing env sm :
  outcome (monitor env) = inr sm ->
  map result_key (results sm) = omap (report_of env) (env_list_workflows env).
Proof.
  intros (st & E & -> & _)%monitor_returns.
  destruct (for_each_step _ _ _ _ E) as (tail & A & K & _). simpl in *.
  now rewrite A.
Qed.

Lemma results_follow_listing_witness :
  exists sm,
    outcome (monitor mixed_env) = inr sm
    /\ map result_key (results sm) = [("test", 12%Z)].
Proof.
  eexists. split; [vm_compute; reflexivity |].
  apply (results_follow_listing mixed_env). vm_compute. reflexivity.
Defined.

Lemma count_concluded_disjoint env wfs :
  count_concluded env "success" wfs + count_concluded env "failure" wfs <= length wfs.
Proof.
  induction wfs as [|wf wfs IH]; [unfold count_concluded; simpl; lia |].
  rewrite !count_concluded_cons.
  set (a := count_concluded env "success" wfs) in *.
  set (b := count_concluded env "failure" wfs) in *.
  unfold concluded. simpl.
  destruct (env_latest_run env (wf_id wf)) as [run|]; [| lia].
  destruct (String.eqb_spec (conclusion run) "success") as [->|]; simpl; [lia |].
  destruct (String.eqb (conclusion run) "failure"); lia.
Qed.

Lemma reports_at_most_failed env wfs :
  length (omap (report_of env) wfs) <= count_concluded env "failure" wfs.
Proof.
  induction wfs as [|wf wfs IH]; [unfold count_concluded; simpl; lia |].
  rewrite omap_cons_list, length_app, count_concluded_cons.
  set (n := length (omap (report_of env) wfs)) in *.
  set (m := count_concluded env "failure" wfs) in *.
  unfold report_of, failed_run_of, concluded.
  destruct (env_latest_run env (wf_id wf)) as [run|]; simpl; [| lia].
  destruct (String.eqb (conclusion run) "failure"); simpl; [| lia].
  destruct (truthy _); simpl; lia.
Qed.

(** X15. In the summary of a pass that returns, passed and failed
    together never exceed the total, and there are never more results
    than failed runs. *)
Theorem summary_bounds env sm :
  outcome (monitor env) = inr sm ->
  passed_count sm + failed_count sm <= total_workflows sm
  /\ length (results sm) <= failed_count sm.
Proof.
  intros H. destruct (monitor_returns _ _ H) as (st & E & -> & _).
  destruct (for_each_counts _ _ _ _ E) as [P F].
  destruct (for_each_step _ _ _ _ E) as (tail & A & K & _).
  simpl in *. rewrite P, F, A. simpl.
  pose proof (count_concluded_disjoint env (env_list_workflows env)).
  pose proof (reports_at_most_failed env (env_list_workflows env)) as B.
  rewrite <- K, length_map in B. lia.
Qed.

Lemma summary_bounds_witness :
  exists sm,
    outcome (monitor mixed_env) = inr sm
    /\ passed_count sm + failed_count sm <= total_workflows sm
    /\ length (results sm) <= failed_count sm.
Proof.
  eexists. split; [vm_compute; reflexivity |].
  apply (summary_bounds mixed_env). vm_compute. reflexivity.
Defined.

Lemma trace_bind_cases {A B} (m : M A) (k : A -> M B) :
  trace (bind m k) = trace m
  \/ exists a, outcome m = inr a /\ trace (bind m k) = trace m ++ trace (k a).
Proof.
  destruct m as [t [e|a]]; simpl; [now left |].
  right. exists a. now destruct (k a).
Qed.

Lemma annotate_no_listing env acc idx errs :
  Call_list_workflows ∉ trace (annotate env acc idx errs).
Proof.
  destruct (annotate_spec env acc idx errs) as (new & -> & _). cbn [trace fst].
  rewrite list_elem_of_In, in_flat_map. intros (e & _ & H).
  rewrite ai_fix_trace in H. destruct (rule_based_fix (error_line e)); simpl in H;
    intuition discriminate.
Qed.

Lemma monitor_body_no_listing env st wf :
  Call_list_workflows ∉ trace (monitor_body env st wf).
Proof.
  assert (N1 : forall a, Call_list_workflows ∉ [Call_latest_run a]).
  { intros a H. apply list_elem_of_In in H. simpl in H. intuition discriminate. }
  assert (N2 : forall a b, Call_list_workflows ∉ [Call_latest_run a; Call_download_logs b]).
  { intros a b H. apply list_elem_of_In in H. simpl in H. intuition discriminate. }
  assert (N3 : forall a b c, Call_list_workflows ∉
                [Call_latest_run a; Call_download_logs b; Call_extract_all_errors c]).
  { intros a b c H. apply list_elem_of_In in H. simpl in H. intuition discriminate. }
  destruct (env_latest_run env (wf_id wf)) as [run|] eqn:L.
  - destruct (String.eqb_spec (conclusion run) "success") as [C|C].
    + rewrite (monitor_body_success _ _ _ _ L C). apply N1.
    + destruct (String.eqb_spec (conclusion run) "failure") as [F|F].
      * destruct (truthy (env_download_logs env (run_id run))) eqn:T.
        -- destruct (env_download_logs env (run_id run)) as [[|b logs]|] eqn:D;
             try discriminate T.
           destruct (env_ZipFile env (b :: logs)) as [z|] eqn:Z.
           ++ rewrite (monitor_body_report _ _ _ _ _ _ L F D ltac:(discriminate) Z).
              cbn [trace fst]. intros [H|H]%elem_of_app.
              ** now apply N3 in H.
              ** now apply annotate_no_listing in H.
           ++ rewrite (monitor_body_corrupt _ _ _ _ _ L F D ltac:(discriminate) Z).
              apply N3.
        -- rewrite (monitor_body_no_logs _ _ _ _ L F T). apply N2.
      * rewrite (monitor_body_other _ _ _ _ L C F). apply N1.
  - rewrite (monitor_body_absent _ _ _ L). apply N1.
Qed.

Lemma for_each_no_listing env wfs st :
  Call_list_workflows ∉ trace (for_each (monitor_body env) st wfs).
Proof.
  revert st. induction wfs as [|wf wfs IH]; intros st; cbn [for_each].
  - intros H. inversion H.
  - destruct (trace_bind_cases (monitor_body env st wf)
                (fun st' => for_each (monitor_body env) st' wfs)) as [->|(a & _ & ->)].
    + apply monitor_body_no_listing.
    + intros [H|H]%elem_of_app.
      * now apply monitor_body_no_listing in H.
      * now apply IH in H.
Qed.

(** X16. A pass that returns asks once for the list of workflows, first
    of all; then for the latest run of every workflow, once each and in
    the order of the listing; it asks for logs only for the runs that
    concluded [failure], once each; and it opens an archive once for
    every result. *)
Theorem calls_follow_listing env sm :
  outcome (monitor env) = inr sm ->
  exists t,
    trace (monitor env) = Call_list_workflows :: t
    /\ (Call_list_workflows ∉ t)
    /\ latest_run_calls t = map wf_id (env_list_workflows env)
    /\ download_calls t =
       omap (fun wf => run_id <$> failed_run_of env wf) (env_list_workflows env)
    /\ length (extract_calls t) = length (results sm).
Proof.
  intros (st & E & -> & T)%monitor_returns.
  destruct (for_each_step _ _ _ _ E) as (tail & A & _ & _ & L & D & X).
  eexists. split; [exact T |]. split; [apply for_each_no_listing |].
  simpl in *. now rewrite A.
Qed.

Lemma calls_follow_listing_witness :
  exists sm t,
    outcome (monitor mixed_env) = inr sm
    /\ trace (monitor mixed_env) = Call_list_workflows :: t
    /\ latest_run_calls t = [1; 2; 3; 4]%Z
    /\ download_calls t = [12; 13]%Z
    /\ length (extract_calls t) = length (results sm).
Proof.
  destruct (calls_follow_listing mixed_env
              (mkSummary 4 1 2
                 [mkResult "test" 12
                    [mkAnnotated 1 "test/4_pytest" 1
                       "E   ModuleNotFoundError: No module named 'yaml'" dependency_fix;
                     mkAnnotated 2 "test/4_pytest" 2 "exit status 2"
                       ("Cause: the test step failed." +:+ nl +:+
                        "Fix: read the log above.")]]))
    as (t & T & _ & L & D & X).
  - vm_compute. reflexivity.
  - eexists _, t. split; [vm_compute; reflexivity |]. now repeat split.
Defined.

(** *** When the pass returns *)

Lemma monitor_body_open env st wf :
  logs_open env [wf] -> exists st', outcome (monitor_body env st wf) = inr st'.
Proof.
  intros O.
  destruct (env_latest_run env (wf_id wf)) as [run|] eqn:L.
  - destruct (String.eqb_spec (conclusion run) "success") as [C|C].
    + rewrite (monitor_body_success _ _ _ _ L C). eauto.
    + destruct (String.eqb_spec (conclusion run) "failure") as [F|F].
      * destruct (truthy (env_download_logs env (run_id run))) eqn:T.
        -- destruct (env_download_logs env (run_id run)) as [[|b logs]|] eqn:D;
             try discriminate T.
           destruct (O wf run (b :: logs)) as [z Z];
             [now left | now apply failed_run_of_Some | exact D | discriminate |].
           rewrite (monitor_body_report _ _ _ _ _ _ L F D ltac:(discriminate) Z).
           cbn [outcome snd].
           destruct (annotate_outcome env [] 1 (scan_entries z)) as (info & -> & _).
           eauto.
        -- rewrite (monitor_body_no_logs _ _ _ _ L F T). eauto.
      * rewrite (monitor_body_other _ _ _ _ L C F). eauto.
  - rewrite (monitor_body_absent _ _ _ L). eauto.
Qed.

Lemma monitor_body_returns_open env st wf st' :
  outcome (monitor_body env st wf) = inr st' -> logs_open env [wf].
Proof.
  intros H w run logs [->|W]%elem_of_cons; [| inversion W].
  intros [L F]%failed_run_of_Some D N.
  destruct (env_ZipFile env logs) as [z|] eqn:Z; [eauto |].
  rewrite (monitor_body_corrupt _ _ _ _ _ L F D N Z) in H. discriminate H.
Qed.

Lemma logs_open_cons env wf wfs :
  logs_open env (wf :: wfs) <-> logs_open env [wf] /\ logs_open env wfs.
Proof.
  split.
  - intros O. split; intros w run logs W; apply O.
    + apply elem_of_cons in W as [->|W]; [now left | inversion W].
    + now right.
  - intros [O1 O2] w run logs [->|W]%elem_of_cons.
    + apply O1. now left.
    + now apply O2.
Qed.

Lemma for_each_returns_iff env wfs st :
  (exists st', outcome (for_each (monitor_body env) st wfs) = inr st')
  <-> logs_open env wfs.
Proof.
  revert st. induction wfs as [|wf wfs IH]; intros st; cbn [for_each].
  - split; [| now exists st]. intros _ w run logs W. inversion W.
  - rewrite logs_open_cons. split.
    + intros (st' & (st1 & H1 & H2)%outcome_bind_inr). split.
      * eapply monitor_body_returns_open, H1.
      * apply (IH st1). eauto.
    + intros [O1 O2]. destruct (monitor_body_open env st wf O1) as [st1 H1].
      rewrite (outcome_bind _ _ _ H1). now apply IH.
Qed.

(** X17. A pass returns a summary exactly when every failed run whose
    download gave bytes has logs that open as an archive; in every other
    case it ends with [BadZipFile]. *)
Theorem pass_returns_iff_logs_open env :
  ((exists sm, outcome (monitor env) = inr sm)
   <-> logs_open env (env_list_workflows env))
  /\ (~ logs_open env (env_list_workflows env) ->
      outcome (monitor env) = inl BadZipFile).
Proof.
  assert (I : (exists sm, outcome (monitor env) = inr sm)
              <-> logs_open env (env_list_workflows env)).
  { rewrite <- (for_each_returns_iff env _ (mkLoop 0 0 [])), monitor_outcome.
    destruct (outcome (for_each _ _ _)) as [e|st]; split; intros [x H];
      try discriminate H; eauto. }
  split; [exact I |]. intros N.
  destruct (outcome (monitor env)) as [[]|sm] eqn:E; [reflexivity |].
  destruct N. apply I. eauto.
Qed.

Lemma pass_returns_iff_logs_open_witness :
  (exists sm, outcome (monitor mixed_env) = inr sm)
  /\ outcome (monitor corrupt_env) = inl BadZipFile.
Proof.
  split.
  - apply (proj1 (pass_returns_iff_logs_open mixed_env)).
    intros wf run logs _ _ _ _. vm_compute. eauto.
  - apply (proj2 (pass_returns_iff_logs_open corrupt_env)). intros O.
    destruct (O (mkWorkflow 1 "build") (mkRun 101 "failure") [Byte.x01]) as [z Z];
      try reflexivity; try discriminate.
    vm_compute. right. left.
Defined.

(** X18. In a pass that returns, every result belongs to a failed run of
    the listing whose logs opened: it has the name of that workflow and
    the run, and its errors are the occurrences of the scan of that
    archive, in order, numbered from 1, each with the job step, line
    number and text of its occurrence and with what [ai_fix] returns for
    that text. *)
Theorem results_hold_scanned_errors env sm :
  outcome (monitor env) = inr sm ->
  Forall (result_of_archive env (env_list_workflows env)) (results sm).
Proof.
  intros (st & E & -> & _)%monitor_returns.
  destruct (for_each_step _ _ _ _ E) as (tail & A & _ & F & _). simpl in *.
  now rewrite A.
Qed.

Lemma results_hold_scanned_errors_witness :
  exists sm,
    outcome (monitor mixed_env) = inr sm
    /\ Forall (result_of_archive mixed_env (env_list_workflows mixed_env)) (results sm).
Proof.
  eexists. split; [vm_compute; reflexivity |].
  apply (results_hold_scanned_errors mixed_env). vm_compute. reflexivity.
Defined.

(** X19. When the listing is empty (also when the request for it failed,
    which [list_workflows] turns into an empty list) the pass makes no
    further call and reports 0 workflows, 0 passed, 0 failed and no
    result. *)
Theorem empty_listing_gives_zero_summary env :
  env_list_workflows env = [] ->
  monitor env = ([Call_list_workflows], inr (mkSummary 0 0 0 [])).
Proof. intros E. rewrite monitor_pair, E. reflexivity. Qed.

Lemma empty_listing_gives_zero_summary_witness :
  monitor (mkEnv [] (fun _ => None) (fun _ => None) (fun _ => None)
             (fun _ => no_answer))
  = ([Call_list_workflows], inr (mkSummary 0 0 0 [])).
Proof. apply empty_listing_gives_zero_summary. reflexivity. Defined.

(* ===================================================================== *)
(** ** Job steps, counts of texts, suggestions in the results             *)
(* ===================================================================== *)

Lemma replace_from_no_occurrence (s : string) :
  str_in ".txt" s = false -> replace_from ".txt" "" 0 s = s.
Proof.
  induction s as [|c s IH]; [reflexivity |].
  cbn [str_in]. intros [H1 H2]%orb_false_iff.
  cbn [replace_from]. rewrite H1, (IH H2). reflexivity.
Qed.

(** An occurrence of [.txt] cannot start in a text without one and end in
    a [.txt] put after it. *)
Lemma startswith_txt_boundary (base : string) :
  base <> "" -> startswith ".txt" base = false ->
  startswith ".txt" (base +:+ ".txt") = false.
Proof.
  intros N H.
  destruct base as [|c1 [|c2 [|c3 [|c4 r]]]]; [congruence | | | |]; simpl in *;
    repeat match goal with
           | |- context [Ascii.eqb ?a ?b] =>
               destruct (Ascii.eqb_spec a b); subst; simpl in *; try discriminate
           end; try reflexivity; try congruence.
Qed.

Lemma replace_from_trailing (base : string) :
  str_in ".txt" base = false ->
  replace_from ".txt" "" 0 (base +:+ ".txt") = base.
Proof.
  induction base as [|c base IH]; [reflexivity |].
  cbn [str_in]. intros [H1 H2]%orb_false_iff.
  change (String c base +:+ ".txt") with (String c (base +:+ ".txt")).
  cbn [replace_from].
  change (String c (base +:+ ".txt")) with (String c base +:+ ".txt").
  rewrite (startswith_txt_boundary (String c base)) by (discriminate || exact H1).
  now rewrite (IH H2).
Qed.

(** X20. For an entry name whose only [.txt] is the one at its end, the
    job step is the name without it; a name without any [.txt] is the job
    step as it is. *)
Theorem job_step_of_plain_names :
  (forall base,
     str_in ".txt" base = false -> replace ".txt" "" (base +:+ ".txt") = base)
  /\ (forall name, str_in ".txt" name = false -> replace ".txt" "" name = name).
Proof.
  split; intros s H; unfold replace.
  - now apply replace_from_trailing.
  - now apply replace_from_no_occurrence.
Qed.

Lemma job_step_of_plain_names_witness :
  replace ".txt" "" ("build (ubuntu-latest)/3_Run tests" +:+ ".txt")
  = "build (ubuntu-latest)/3_Run tests"
  /\ replace ".txt" "" "build/system.log" = "build/system.log".
Proof.
  split.
  - apply (proj1 job_step_of_plain_names). reflexivity.
  - apply (proj2 job_step_of_plain_names). reflexivity.
Defined.

(** X21. The scan gives as many occurrences as the error lines of the
    archive have different lower-case normalized texts. *)
Theorem scan_counts_distinct_texts (z : entries) :
  length (scan_entries z) =
  size (list_to_set
          (map (fun r => dedup_key (occurrence_of r))
               (filter (fun r => candidate r = true) (raw_lines z))) : gset string).
Proof.
  assert (I : scan_invariant (fold_left scan_entry z (mkScan ∅ []))).
  { rewrite scan_entries_raw. apply fold_scan_raw_invariant.
    split; [reflexivity | constructor]. }
  destruct I as [S N]. unfold scan_entries.
  rewrite <- (length_map dedup_key), <- (size_list_to_set (C := gset string)) by exact N.
  rewrite <- S. f_equal. apply set_eq. intros k. split.
  - rewrite S, elem_of_list_to_set. intros (o & -> & Ho)%list_elem_of_fmap.
    change (o ∈ scan_entries z) in Ho. rewrite scan_entries_first_by_key in Ho.
    apply first_by_key_elem in Ho as [(r & -> & Hr)%list_elem_of_fmap _].
    apply elem_of_list_to_set, list_elem_of_fmap. eauto.
  - rewrite elem_of_list_to_set. intros (r & -> & Hr)%list_elem_of_fmap.
    apply list_elem_of_filter in Hr as [C Hr].
    rewrite scan_entries_raw. now apply fold_scan_raw_sees.
Qed.

Lemma ai_fix_labels env error_line s :
  outcome (ai_fix env error_line) = inr s ->
  str_in "Cause:" s = true /\ str_in "Fix:" s = true /\ strip s = s.
Proof.
  destruct (rule_based_fix_cases error_line) as [R|R].
  - unfold ai_fix. rewrite R. simpl. intros [= <-]. repeat split.
  - rewrite (ai_fix_generated _ _ R). cbn [outcome snd].
    set (t := strip _).
    destruct (str_in "Cause:" t) eqn:C; simpl; [| intros [= <-]; repeat split].
    destruct (str_in "Fix:" t) eqn:F; simpl; [| intros [= <-]; repeat split].
    intros [= <-]. repeat split; try assumption. apply strip_idem.
Qed.

(** X22. In a pass that returns, every error of every result carries a
    suggestion that holds both labels [Cause:] and [Fix:] and is trimmed,
    and the errors of every result are numbered 1, 2, ... without gaps. *)
Theorem reported_errors_carry_suggestions env sm :
  outcome (monitor env) = inr sm ->
  forall r a,
    r ∈ results sm -> a ∈ r_errors r ->
    str_in "Cause:" (suggestion a) = true
    /\ str_in "Fix:" (suggestion a) = true
    /\ strip (suggestion a) = suggestion a
    /\ map error_number (r_errors r) = seq 1 (length (r_errors r)).
Proof.
  intros (st & E & -> & _)%monitor_returns r a Hr Ha.
  destruct (for_each_step _ _ _ _ E) as (tail & A & _ & F & _). simpl in *.
  rewrite A in Hr. simpl in Hr.
  rewrite Forall_forall in F.
  destruct (F r Hr) as (wf & run & logs & z & _ & _ & _ & _ & _ & _ & _ & Nu & _ & _ & _ & Su).
  rewrite Forall_forall in Su.
  destruct (ai_fix_labels _ _ _ (Su a Ha)) as (C & Fi & T).
  repeat split; try assumption.
  rewrite Nu. f_equal. now rewrite <- (length_map error_number), Nu, length_seq.
Qed.

Lemma reported_errors_carry_suggestions_witness :
  str_in "Cause:" dependency_fix = true
  /\ str_in "Fix:" dependency_fix = true
  /\ strip dependency_fix = dependency_fix
  /\ [1; 2] = seq 1 2.
Proof.
  pose (a1 := mkAnnotated 1 "test/4_pytest" 1
                "E   ModuleNotFoundError: No module named 'yaml'" dependency_fix).
  pose (a2 := mkAnnotated 2 "test/4_pytest" 2 "exit status 2"
                ("Cause: the test step failed." +:+ nl +:+ "Fix: read the log above.")).
  refine (reported_errors_carry_suggestions mixed_env
            (mkSummary 4 1 2 [mkResult "test" 12 [a1; a2]]) _
            (mkResult "test" 12 [a1; a2]) a1 _ _).
  - vm_compute. reflexivity.
  - vm_compute. left.
  - vm_compute. left.
Defined.

(* ===================================================================== *)
(** ** Normalization                                                        *)
(* ===================================================================== *)

(** *** [strip] against the words of the spec *)





(** *** A time of day holds neither a line feed nor a [Z] *)








